(** * VoiceChat: the voice session engine of [frontend/src/VoiceChat.jsx]

    A shallow embedding of the [VoiceChat] React component: its hook state,
    its refs, the browser objects the refs point to (WebSocket, MediaRecorder,
    MediaStream, speechSynthesis) and the handlers the component installs.

    Every handler is a function on [World].  Calls into the browser API are
    appended to an effect log, so that ordering properties can be stated.
    A React closure reads the hook values of the render that created it;
    handlers therefore take that render's [Hooks] snapshot [r] next to the
    current [World] they update. *)

From Stdlib Require Import String Ascii List Bool Arith ZArith Lia.
From Stdlib Require Import DecimalString.
From stdpp Require Import base option list.
Import ListNotations.

Local Open Scope string_scope.
Local Open Scope list_scope.

(** ** JavaScript values carried by parsed JSON messages *)

Inductive jsval :=
| JUndefined
| JNull
| JBool (b : bool)
| JNum (n : Z)
| JStr (s : string)
| JObj.

(** JavaScript truthiness, as used by [if (x)], [x || y] and [!x]. *)
Definition truthy (v : jsval) : bool :=
  match v with
  | JUndefined | JNull => false
  | JBool b => b
  | JNum n => negb (Z.eqb n 0)
  | JStr s => negb (String.eqb s "")
  | JObj => true
  end.

(** [a || b] *)
Definition js_or (a b : jsval) : jsval := if truthy a then a else b.

(** [s.split(sep)] for a one-character separator. *)
Fixpoint split (sep : ascii) (s : string) : list string :=
  match s with
  | EmptyString => [EmptyString]
  | String c s' =>
      if Ascii.eqb c sep then EmptyString :: split sep s'
      else match split sep s' with
           | h :: t => String c h :: t
           | [] => [String c EmptyString]
           end
  end.

(** ** White space

    [String.prototype.trim] removes the code points of WhiteSpace and
    LineTerminator: U+0009 to U+000D, U+0020, U+00A0, U+1680, U+2000 to
    U+200A, U+2028, U+2029, U+202F, U+205F, U+3000 and U+FEFF.  A [string]
    holds the UTF-8 bytes of the JavaScript string, so these code points are
    recognised by their encodings of one, two and three bytes. *)

(** U+0009 to U+000D and U+0020. *)
Definition is_white_space (c : ascii) : bool :=
  let n := nat_of_ascii c in
  Nat.eqb n 32 || (Nat.leb 9 n && Nat.leb n 13).

(** U+00A0, encoded as [C2 A0]. *)
Definition is_white_space_2 (c1 c2 : ascii) : bool :=
  Nat.eqb (nat_of_ascii c1) 194 && Nat.eqb (nat_of_ascii c2) 160.

(** U+1680 [E1 9A 80]; U+2000 to U+200A [E2 80 80] to [E2 80 8A];
    U+2028, U+2029, U+202F [E2 80 A8], [E2 80 A9], [E2 80 AF];
    U+205F [E2 81 9F]; U+3000 [E3 80 80]; U+FEFF [EF BB BF]. *)
Definition is_white_space_3 (c1 c2 c3 : ascii) : bool :=
  let a := nat_of_ascii c1 in
  let b := nat_of_ascii c2 in
  let c := nat_of_ascii c3 in
  (Nat.eqb a 225 && Nat.eqb b 154 && Nat.eqb c 128)
  || (Nat.eqb a 226 && Nat.eqb b 128
      && ((Nat.leb 128 c && Nat.leb c 138)
          || Nat.eqb c 168 || Nat.eqb c 169 || Nat.eqb c 175))
  || (Nat.eqb a 226 && Nat.eqb b 129 && Nat.eqb c 159)
  || (Nat.eqb a 227 && Nat.eqb b 128 && Nat.eqb c 128)
  || (Nat.eqb a 239 && Nat.eqb b 187 && Nat.eqb c 191).

(** [!s.trim()]: the trimmed string is empty, that is, [s] is made of
    white space only. *)
Fixpoint trim_is_empty (s : string) : bool :=
  match s with
  | EmptyString => true
  | String c1 s1 =>
      if is_white_space c1 then trim_is_empty s1
      else
        match s1 with
        | EmptyString => false
        | String c2 s2 =>
            if is_white_space_2 c1 c2 then trim_is_empty s2
            else
              match s2 with
              | EmptyString => false
              | String c3 s3 =>
                  if is_white_space_3 c1 c2 c3 then trim_is_empty s3
                  else false
              end
        end
  end.

(** [`${v}`]: the text a template literal gives a value.  [JNum] holds an
    integer, printed in decimal (as JavaScript does below 10^21); [JObj] is a
    plain object. *)
Definition js_toString (v : jsval) : string :=
  match v with
  | JUndefined => "undefined"
  | JNull => "null"
  | JBool true => "true"
  | JBool false => "false"
  | JNum n => NilZero.string_of_int (Z.to_int n)
  | JStr s => s
  | JObj => "[object Object]"
  end.

(** ** Data of the component *)

Definition API_BASE : string := "/api".

Record Language := {
  lang_code : string;
  lang_name : string;
  lang_flag : string
}.

Definition LANGUAGES : list Language :=
  [ {| lang_code := "en"; lang_name := "English"; lang_flag := "🇺🇸" |};
    {| lang_code := "en-gb"; lang_name := "English (UK)"; lang_flag := "🇬🇧" |};
    {| lang_code := "hi"; lang_name := "Hindi"; lang_flag := "🇮🇳" |};
    {| lang_code := "ta"; lang_name := "Tamil"; lang_flag := "🇮🇳" |};
    {| lang_code := "te"; lang_name := "Telugu"; lang_flag := "🇮🇳" |};
    {| lang_code := "bn"; lang_name := "Bengali"; lang_flag := "🇮🇳" |};
    {| lang_code := "mr"; lang_name := "Marathi"; lang_flag := "🇮🇳" |};
    {| lang_code := "gu"; lang_name := "Gujarati"; lang_flag := "🇮🇳" |};
    {| lang_code := "kn"; lang_name := "Kannada"; lang_flag := "🇮🇳" |};
    {| lang_code := "ml"; lang_name := "Malayalam"; lang_flag := "🇮🇳" |};
    {| lang_code := "pa"; lang_name := "Punjabi"; lang_flag := "🇮🇳" |};
    {| lang_code := "ur"; lang_name := "Urdu"; lang_flag := "🇵🇰" |};
    {| lang_code := "es"; lang_name := "Spanish"; lang_flag := "🇪🇸" |};
    {| lang_code := "fr"; lang_name := "French"; lang_flag := "🇫🇷" |};
    {| lang_code := "de"; lang_name := "German"; lang_flag := "🇩🇪" |};
    {| lang_code := "it"; lang_name := "Italian"; lang_flag := "🇮🇹" |};
    {| lang_code := "pt"; lang_name := "Portuguese"; lang_flag := "🇵🇹" |};
    {| lang_code := "ru"; lang_name := "Russian"; lang_flag := "🇷🇺" |};
    {| lang_code := "nl"; lang_name := "Dutch"; lang_flag := "🇳🇱" |};
    {| lang_code := "pl"; lang_name := "Polish"; lang_flag := "🇵🇱" |};
    {| lang_code := "ja"; lang_name := "Japanese"; lang_flag := "🇯🇵" |};
    {| lang_code := "ko"; lang_name := "Korean"; lang_flag := "🇰🇷" |};
    {| lang_code := "zh"; lang_name := "Mandarin"; lang_flag := "🇨🇳" |};
    {| lang_code := "th"; lang_name := "Thai"; lang_flag := "🇹🇭" |};
    {| lang_code := "vi"; lang_name := "Vietnamese"; lang_flag := "🇻🇳" |};
    {| lang_code := "id"; lang_name := "Indonesian"; lang_flag := "🇮🇩" |};
    {| lang_code := "ar"; lang_name := "Arabic"; lang_flag := "🇸🇦" |};
    {| lang_code := "he"; lang_name := "Hebrew"; lang_flag := "🇮🇱" |};
    {| lang_code := "tr"; lang_name := "Turkish"; lang_flag := "🇹🇷" |} ].

Record Mission := {
  mission_id : string;
  mission_title : string;
  mission_difficulty : string;
  mission_situation : string;
  mission_objectives : list string;
  mission_estimatedMinutes : nat
}.

Inductive View := setup | active | summary.

Inductive Role := user | assistant.

Record TranscriptEntry := { role : Role; text : jsval; isTemp : bool }.

(** A parsed inbound message; a key that is absent reads as [JUndefined]. *)
Record Msg := {
  msg_type : jsval;
  msg_text : jsval;
  msg_data : jsval;
  msg_is_final : jsval;
  msg_message : jsval;
  msg_session_id : jsval
}.

(** The objects handed to [JSON.stringify] and sent on the socket. *)
Inductive OutMsg :=
| OutAudio (data : jsval) (mime_type : string)
| OutText (data : string)
| OutEnd.

(** Body of the session request; [JSON.stringify] drops a [JUndefined] key. *)
Record SessionRequest := {
  req_mission_id : jsval;
  req_language : string;
  req_from_language : string;
  req_mode : string
}.

(** ** The hook state ([useState]) *)

Record Hooks := {
  view : View;
  missions : list Mission;
  selectedMission : option Mission;
  selectedLanguage : Language;
  mode : string;
  sessionId : jsval;
  isConnected : bool;
  isRecording : bool;
  isMuted : bool;
  transcripts : list TranscriptEntry;
  error : jsval;
  textInput : string
}.

(** ** Browser objects *)

(** [WebSocket.readyState] *)
Inductive ReadyState := CONNECTING | OPEN | CLOSING | CLOSED.

(** A socket: its ready state, what was really transmitted on it, and the
    render whose [handleWebSocketMessage] its [onmessage] closure holds. *)
Record WebSocket := {
  readyState : ReadyState;
  transmitted : list OutMsg;
  captured : Hooks
}.

(** [MediaRecorder.state]; the component never pauses a recorder. *)
Inductive RecordingState := inactive | recording.

Abbreviation Blob := string.

Record MediaRecorder := {
  rec_state : RecordingState;
  rec_stream : nat;
  chunks : list Blob
}.

(** [MediaStreamTrack.readyState] *)
Inductive TrackState := live | ended.

Abbreviation MediaStream := (list TrackState).

Record Voice := { voice_lang : string; voice_name : string }.

Record Utterance := { utt_text : jsval; utt_voice : option Voice }.

(** [window.speechSynthesis]: the installed voices and the utterance queue,
    whose head is the one being spoken. *)
Record SpeechSynthesis := {
  voices : list Voice;
  queue : list Utterance
}.

(** Calls made into the browser, in program order. *)
Inductive Effect :=
| EFetchMissions (url : string)
| EFetch (url : string) (body : SessionRequest)
| ENewWebSocket (ws : nat) (url : string)
| EWsSend (ws : nat) (m : OutMsg)
| EWsClose (ws : nat)
| EGetUserMedia
| ENewAudioContext
| ENewMediaRecorder (rec stream : nat)
| ERecorderStart (rec : nat)
| ERecorderStop (rec : nat)
| ETrackStop (stream track : nat)
| EReadAsDataURL (blob : Blob)
| ESynthCancel
| ESynthSpeak (u : Utterance)
| EConsoleLog (label : string) (arg : jsval)
| EConsoleError (label : string).

(** ** The world: hooks, refs, and the objects the refs point into *)

Record World := {
  hooks : Hooks;
  wsRef : option nat;
  mediaRecorderRef : option nat;
  audioContextRef : option nat;
  streamRef : option nat;
  synthRef : option SpeechSynthesis;
  sockets : list WebSocket;
  recorders : list MediaRecorder;
  streams : list MediaStream;
  audioContexts : nat;
  location_protocol : string;
  location_host : string;
  effects : list Effect
}.

(** A handler either returns or throws, in both cases leaving a world. *)
Inductive Exn := InvalidStateError.

Inductive Outcome :=
| Returned (w : World)
| Thrown (e : Exn) (w : World).

Definition world_of (o : Outcome) : World :=
  match o with Returned w | Thrown _ w => w end.

Definition bind (o : Outcome) (k : World -> Outcome) : Outcome :=
  match o with
  | Returned w => k w
  | Thrown e w => Thrown e w
  end.

Notation "'do' w <- o ; k" := (bind o (fun w => k))
  (at level 10, w name, o at level 100, k at level 200).

(** ** Field updates *)

Definition with_hooks (f : Hooks -> Hooks) (w : World) : World :=
  {| hooks := f (hooks w); wsRef := wsRef w;
     mediaRecorderRef := mediaRecorderRef w;
     audioContextRef := audioContextRef w; streamRef := streamRef w;
     synthRef := synthRef w; sockets := sockets w; recorders := recorders w;
     streams := streams w; audioContexts := audioContexts w;
     location_protocol := location_protocol w;
     location_host := location_host w; effects := effects w |}.

Definition setView (v : View) : World -> World :=
  with_hooks (fun h =>
    {| view := v; missions := missions h;
       selectedMission := selectedMission h;
       selectedLanguage := selectedLanguage h; mode := mode h;
       sessionId := sessionId h; isConnected := isConnected h;
       isRecording := isRecording h; isMuted := isMuted h;
       transcripts := transcripts h; error := error h;
       textInput := textInput h |}).

Definition setMissions (ms : list Mission) : World -> World :=
  with_hooks (fun h =>
    {| view := view h; missions := ms;
       selectedMission := selectedMission h;
       selectedLanguage := selectedLanguage h; mode := mode h;
       sessionId := sessionId h; isConnected := isConnected h;
       isRecording := isRecording h; isMuted := isMuted h;
       transcripts := transcripts h; error := error h;
       textInput := textInput h |}).

Definition setSelectedMission (m : option Mission) : World -> World :=
  with_hooks (fun h =>
    {| view := view h; missions := missions h;
       selectedMission := m;
       selectedLanguage := selectedLanguage h; mode := mode h;
       sessionId := sessionId h; isConnected := isConnected h;
       isRecording := isRecording h; isMuted := isMuted h;
       transcripts := transcripts h; error := error h;
       textInput := textInput h |}).

Definition setSelectedLanguage (l : Language) : World -> World :=
  with_hooks (fun h =>
    {| view := view h; missions := missions h;
       selectedMission := selectedMission h;
       selectedLanguage := l; mode := mode h;
       sessionId := sessionId h; isConnected := isConnected h;
       isRecording := isRecording h; isMuted := isMuted h;
       transcripts := transcripts h; error := error h;
       textInput := textInput h |}).

Definition setMode (m : string) : World -> World :=
  with_hooks (fun h =>
    {| view := view h; missions := missions h;
       selectedMission := selectedMission h;
       selectedLanguage := selectedLanguage h; mode := m;
       sessionId := sessionId h; isConnected := isConnected h;
       isRecording := isRecording h; isMuted := isMuted h;
       transcripts := transcripts h; error := error h;
       textInput := textInput h |}).

Definition setSessionId (i : jsval) : World -> World :=
  with_hooks (fun h =>
    {| view := view h; missions := missions h;
       selectedMission := selectedMission h;
       selectedLanguage := selectedLanguage h; mode := mode h;
       sessionId := i; isConnected := isConnected h;
       isRecording := isRecording h; isMuted := isMuted h;
       transcripts := transcripts h; error := error h;
       textInput := textInput h |}).

Definition setIsConnected (b : bool) : World -> World :=
  with_hooks (fun h =>
    {| view := view h; missions := missions h;
       selectedMission := selectedMission h;
       selectedLanguage := selectedLanguage h; mode := mode h;
       sessionId := sessionId h; isConnected := b;
       isRecording := isRecording h; isMuted := isMuted h;
       transcripts := transcripts h; error := error h;
       textInput := textInput h |}).

Definition setIsRecording (b : bool) : World -> World :=
  with_hooks (fun h =>
    {| view := view h; missions := missions h;
       selectedMission := selectedMission h;
       selectedLanguage := selectedLanguage h; mode := mode h;
       sessionId := sessionId h; isConnected := isConnected h;
       isRecording := b; isMuted := isMuted h;
       transcripts := transcripts h; error := error h;
       textInput := textInput h |}).

Definition setIsMuted (b : bool) : World -> World :=
  with_hooks (fun h =>
    {| view := view h; missions := missions h;
       selectedMission := selectedMission h;
       selectedLanguage := selectedLanguage h; mode := mode h;
       sessionId := sessionId h; isConnected := isConnected h;
       isRecording := isRecording h; isMuted := b;
       transcripts := transcripts h; error := error h;
       textInput := textInput h |}).

(** [setTranscripts(prev => f(prev))] *)
Definition setTranscripts
    (f : list TranscriptEntry -> list TranscriptEntry) : World -> World :=
  with_hooks (fun h =>
    {| view := view h; missions := missions h;
       selectedMission := selectedMission h;
       selectedLanguage := selectedLanguage h; mode := mode h;
       sessionId := sessionId h; isConnected := isConnected h;
       isRecording := isRecording h; isMuted := isMuted h;
       transcripts := f (transcripts h); error := error h;
       textInput := textInput h |}).

Definition setError (e : jsval) : World -> World :=
  with_hooks (fun h =>
    {| view := view h; missions := missions h;
       selectedMission := selectedMission h;
       selectedLanguage := selectedLanguage h; mode := mode h;
       sessionId := sessionId h; isConnected := isConnected h;
       isRecording := isRecording h; isMuted := isMuted h;
       transcripts := transcripts h; error := e;
       textInput := textInput h |}).

Definition setTextInput (s : string) : World -> World :=
  with_hooks (fun h =>
    {| view := view h; missions := missions h;
       selectedMission := selectedMission h;
       selectedLanguage := selectedLanguage h; mode := mode h;
       sessionId := sessionId h; isConnected := isConnected h;
       isRecording := isRecording h; isMuted := isMuted h;
       transcripts := transcripts h; error := error h;
       textInput := s |}).

Definition set_wsRef (r : option nat) (w : World) : World :=
  {| hooks := hooks w; wsRef := r;
     mediaRecorderRef := mediaRecorderRef w;
     audioContextRef := audioContextRef w; streamRef := streamRef w;
     synthRef := synthRef w; sockets := sockets w; recorders := recorders w;
     streams := streams w; audioContexts := audioContexts w;
     location_protocol := location_protocol w;
     location_host := location_host w; effects := effects w |}.

Definition set_mediaRecorderRef (r : option nat) (w : World) : World :=
  {| hooks := hooks w; wsRef := wsRef w;
     mediaRecorderRef := r;
     audioContextRef := audioContextRef w; streamRef := streamRef w;
     synthRef := synthRef w; sockets := sockets w; recorders := recorders w;
     streams := streams w; audioContexts := audioContexts w;
     location_protocol := location_protocol w;
     location_host := location_host w; effects := effects w |}.

Definition set_audioContextRef (r : option nat) (w : World) : World :=
  {| hooks := hooks w; wsRef := wsRef w;
     mediaRecorderRef := mediaRecorderRef w;
     audioContextRef := r; streamRef := streamRef w;
     synthRef := synthRef w; sockets := sockets w; recorders := recorders w;
     streams := streams w; audioContexts := audioContexts w;
     location_protocol := location_protocol w;
     location_host := location_host w; effects := effects w |}.

Definition set_streamRef (r : option nat) (w : World) : World :=
  {| hooks := hooks w; wsRef := wsRef w;
     mediaRecorderRef := mediaRecorderRef w;
     audioContextRef := audioContextRef w; streamRef := r;
     synthRef := synthRef w; sockets := sockets w; recorders := recorders w;
     streams := streams w; audioContexts := audioContexts w;
     location_protocol := location_protocol w;
     location_host := location_host w; effects := effects w |}.

Definition set_synth (s : option SpeechSynthesis) (w : World) : World :=
  {| hooks := hooks w; wsRef := wsRef w;
     mediaRecorderRef := mediaRecorderRef w;
     audioContextRef := audioContextRef w; streamRef := streamRef w;
     synthRef := s; sockets := sockets w; recorders := recorders w;
     streams := streams w; audioContexts := audioContexts w;
     location_protocol := location_protocol w;
     location_host := location_host w; effects := effects w |}.

Definition set_sockets (l : list WebSocket) (w : World) : World :=
  {| hooks := hooks w; wsRef := wsRef w;
     mediaRecorderRef := mediaRecorderRef w;
     audioContextRef := audioContextRef w; streamRef := streamRef w;
     synthRef := synthRef w; sockets := l; recorders := recorders w;
     streams := streams w; audioContexts := audioContexts w;
     location_protocol := location_protocol w;
     location_host := location_host w; effects := effects w |}.

Definition set_recorders (l : list MediaRecorder) (w : World) : World :=
  {| hooks := hooks w; wsRef := wsRef w;
     mediaRecorderRef := mediaRecorderRef w;
     audioContextRef := audioContextRef w; streamRef := streamRef w;
     synthRef := synthRef w; sockets := sockets w; recorders := l;
     streams := streams w; audioContexts := audioContexts w;
     location_protocol := location_protocol w;
     location_host := location_host w; effects := effects w |}.

Definition set_streams (l : list MediaStream) (w : World) : World :=
  {| hooks := hooks w; wsRef := wsRef w;
     mediaRecorderRef := mediaRecorderRef w;
     audioContextRef := audioContextRef w; streamRef := streamRef w;
     synthRef := synthRef w; sockets := sockets w; recorders := recorders w;
     streams := l; audioContexts := audioContexts w;
     location_protocol := location_protocol w;
     location_host := location_host w; effects := effects w |}.

Definition set_audioContexts (n : nat) (w : World) : World :=
  {| hooks := hooks w; wsRef := wsRef w;
     mediaRecorderRef := mediaRecorderRef w;
     audioContextRef := audioContextRef w; streamRef := streamRef w;
     synthRef := synthRef w; sockets := sockets w; recorders := recorders w;
     streams := streams w; audioContexts := n;
     location_protocol := location_protocol w;
     location_host := location_host w; effects := effects w |}.

Definition set_effects (l : list Effect) (w : World) : World :=
  {| hooks := hooks w; wsRef := wsRef w;
     mediaRecorderRef := mediaRecorderRef w;
     audioContextRef := audioContextRef w; streamRef := streamRef w;
     synthRef := synthRef w; sockets := sockets w; recorders := recorders w;
     streams := streams w; audioContexts := audioContexts w;
     location_protocol := location_protocol w;
     location_host := location_host w; effects := l |}.

(** Record one more call into the browser. *)
Definition emit (e : Effect) (w : World) : World :=
  set_effects (effects w ++ [e]) w.

Definition emit_all (es : list Effect) (w : World) : World :=
  set_effects (effects w ++ es) w.

(** ** Browser API operations *)

(** [ws.send(m)]: throws while the socket is still connecting, transmits
    on an open socket, and discards the data once closing has begun. *)
Definition ws_send (i : nat) (m : OutMsg) (w : World) : Outcome :=
  let w := emit (EWsSend i m) w in
  match sockets w !! i with
  | Some ws =>
      match readyState ws with
      | CONNECTING => Thrown InvalidStateError w
      | OPEN =>
          Returned (set_sockets
            (<[i := {| readyState := OPEN;
                       transmitted := transmitted ws ++ [m];
                       captured := captured ws |}]> (sockets w)) w)
      | CLOSING | CLOSED => Returned w
      end
  | None => Returned w
  end.

(** [ws.close()]: starts the closing handshake unless already closed. *)
Definition ws_close (i : nat) (w : World) : World :=
  let w := emit (EWsClose i) w in
  match sockets w !! i with
  | Some ws =>
      match readyState ws with
      | CLOSED => w
      | _ => set_sockets
               (<[i := {| readyState := CLOSING;
                          transmitted := transmitted ws;
                          captured := captured ws |}]> (sockets w)) w
      end
  | None => w
  end.

(** [recorder.stop()] *)
Definition recorder_stop (i : nat) (w : World) : World :=
  let w := emit (ERecorderStop i) w in
  match recorders w !! i with
  | Some rc =>
      set_recorders
        (<[i := {| rec_state := inactive; rec_stream := rec_stream rc;
                   chunks := chunks rc |}]> (recorders w)) w
  | None => w
  end.

(** [recorder.start()] *)
Definition recorder_start (i : nat) (w : World) : World :=
  let w := emit (ERecorderStart i) w in
  match recorders w !! i with
  | Some rc =>
      set_recorders
        (<[i := {| rec_state := recording; rec_stream := rec_stream rc;
                   chunks := chunks rc |}]> (recorders w)) w
  | None => w
  end.

(** [stream.getTracks().forEach(track => track.stop())] *)
Definition stop_tracks (sid : nat) (w : World) : World :=
  match streams w !! sid with
  | Some tracks =>
      let w := emit_all (map (ETrackStop sid) (seq 0 (length tracks))) w in
      set_streams (<[sid := map (fun _ => ended) tracks]> (streams w)) w
  | None => w
  end.

(** [synth.cancel()]: empties the utterance queue, stopping the current one. *)
Definition synth_cancel (s : SpeechSynthesis) (w : World) : World :=
  set_synth (Some {| voices := voices s; queue := [] |}) (emit ESynthCancel w).

(** [synth.speak(u)] *)
Definition synth_speak (u : Utterance) (w : World) : World :=
  let w := emit (ESynthSpeak u) w in
  match synthRef w with
  | Some s => set_synth (Some {| voices := voices s; queue := queue s ++ [u] |}) w
  | None => w
  end.

(** ** Handlers of the component *)

(** The mount effect: the mission catalog is requested once. *)
Definition mount (w : World) : World :=
  emit (EFetchMissions (API_BASE ++ "/missions")%string) w.

(** [.then(setMissions)] and [.catch(err => console.error(...))] *)
Definition missions_loaded (ms : list Mission) (w : World) : World :=
  setMissions ms w.

Definition missions_failed (w : World) : World :=
  emit (EConsoleError "Failed to load missions:") w.

(** The body handed to [fetch] by [startSession]. *)
Definition session_request (r : Hooks) : SessionRequest :=
  {| req_mission_id :=
       match selectedMission r with
       | Some m => JStr (mission_id m)
       | None => JUndefined
       end;
     req_language := lang_name (selectedLanguage r);
     req_from_language := "English";
     req_mode := mode r |}.

(** [startSession], up to the first [await]: the request is issued. *)
Definition startSession (r : Hooks) (w : World) : World :=
  let w := setError JNull w in
  emit (EFetch (API_BASE ++ "/voice/session")%string (session_request r)) w.

(** What [new WebSocket(url)] does: it returns the socket object, or throws
    a [SyntaxError] for a URL the browser refuses (one that does not parse,
    or that carries a fragment). *)
Inductive Construction :=
| Constructed
| Refused (message : string).

(** What the awaited [fetch] and [res.json()] can yield.  [Rejected]: one of
    them rejects, or the body parsed has no fields to read ([null]), and the
    [catch] gets the error's message.  [NotOk]: a response whose status is
    not ok.  [Created]: a response that is ok, with the [session_id] field
    of its body (any JSON value, or [undefined] when the field is missing)
    and what the browser then does with the socket URL built from it. *)
Inductive SessionResponse :=
| Rejected (message : string)
| NotOk
| Created (session_id : jsval) (socket : Construction).

(** [startSession] after the awaits; [r] is the render that started it.
    The constructor call is inside the [try]: when it throws, the session
    id is already stored, no socket exists, the ref keeps what it held and
    the [catch] reports the message. *)
Definition startSession_resume (r : Hooks) (resp : SessionResponse)
    (w : World) : World :=
  match resp with
  | Rejected message => setError (JStr message) w
  | NotOk => setError (JStr "Failed to create session") w
  | Created session_id socket =>
      let w := setSessionId session_id w in
      let protocol :=
        if String.eqb (location_protocol w) "https:" then "wss:" else "ws:" in
      let wsUrl :=
        (protocol ++ "//" ++ location_host w ++ "/ws/voice/"
           ++ js_toString session_id)%string in
      match socket with
      | Refused message => setError (JStr message) w
      | Constructed =>
          let ws := length (sockets w) in
          let w := emit (ENewWebSocket ws wsUrl) w in
          let w := set_sockets
                     (sockets w ++ [ {| readyState := CONNECTING;
                                        transmitted := [];
                                        captured := r |} ]) w in
          set_wsRef (Some ws) w
      end
  end.

(** [speakText] *)
Definition speakText (r : Hooks) (text : jsval) (w : World) : World :=
  match synthRef w with
  | None => w
  | Some synth =>
      if isMuted r then w
      else
        let w := synth_cancel synth w in
        let langCode := lang_code (selectedLanguage r) in
        let voice :=
          match find (fun v => String.prefix langCode (voice_lang v))
                     (voices synth) with
          | Some v => Some v
          | None => head (voices synth)
          end in
        synth_speak {| utt_text := text; utt_voice := voice |} w
  end.

(** [handleWebSocketMessage] *)
Definition handleWebSocketMessage (r : Hooks) (msg : Msg) (w : World)
    : World :=
  match msg_type msg with
  | JStr type =>
      if String.eqb type "connected" then
        emit (EConsoleLog "Session connected:" (msg_session_id msg)) w
      else if String.eqb type "input_transcript" then
        setTranscripts (fun prev =>
          let newTranscripts := prev in
          if truthy (msg_is_final msg)
          then newTranscripts ++
               [ {| role := user; text := msg_text msg; isTemp := false |} ]
          else newTranscripts) w
      else if String.eqb type "output_transcript" || String.eqb type "text"
      then
        let text := js_or (msg_text msg) (msg_data msg) in
        if truthy text then
          let w := setTranscripts (fun prev =>
                     prev ++ [ {| role := assistant; text := text;
                                  isTemp := false |} ]) w in
          speakText r text w
        else w
      else if String.eqb type "turn_complete" then
        emit (EConsoleLog "Turn complete" JUndefined) w
      else if String.eqb type "error" then
        setError (msg_message msg) w
      else if String.eqb type "session_ended" then
        setView summary w
      else w
  | _ => w
  end.

(** The socket callbacks installed by [startSession]. *)
Definition ws_onopen (w : World) : World :=
  let w := emit (EConsoleLog "WebSocket connected" JUndefined) w in
  setView active (setIsConnected true w).

Definition ws_onmessage (i : nat) (msg : Msg) (w : World) : World :=
  match sockets w !! i with
  | Some ws => handleWebSocketMessage (captured ws) msg w
  | None => w
  end.

Definition ws_onerror (w : World) : World :=
  setError (JStr "Connection error") (emit (EConsoleError "WebSocket error:") w).

Definition ws_onclose (w : World) : World :=
  setIsRecording false (setIsConnected false w).

(** [startRecording], up to [await getUserMedia]. *)
Definition startRecording (w : World) : World := emit EGetUserMedia w.

(** [startRecording] when the promise rejects. *)
Definition startRecording_denied (w : World) : World :=
  setError (JStr "Microphone access denied") w.

(** [startRecording] when the promise resolves with a stream of [ntracks]
    live tracks; [webm] tells whether the recorder accepts [audio/webm]
    (its constructor throws otherwise, and the [catch] runs). *)
Definition startRecording_granted (ntracks : nat) (webm : bool) (w : World)
    : World :=
  let stream := length (streams w) in
  let w := set_streams (streams w ++ [replicate ntracks live]) w in
  let w := set_streamRef (Some stream) w in
  let w := emit ENewAudioContext w in
  let w := set_audioContextRef (Some (audioContexts w))
             (set_audioContexts (S (audioContexts w)) w) in
  if webm then
    let mediaRecorder := length (recorders w) in
    let w := emit (ENewMediaRecorder mediaRecorder stream) w in
    let w := set_recorders
               (recorders w ++ [ {| rec_state := inactive;
                                    rec_stream := stream;
                                    chunks := [] |} ]) w in
    let w := set_mediaRecorderRef (Some mediaRecorder) w in
    let w := recorder_start mediaRecorder w in
    setIsRecording true w
  else setError (JStr "Microphone access denied") w.

(** [mediaRecorder.ondataavailable] of recorder [i] *)
Definition ondataavailable (i : nat) (data : Blob) (w : World) : World :=
  if Nat.ltb 0 (String.length data) then
    match recorders w !! i with
    | Some rc =>
        set_recorders
          (<[i := {| rec_state := rec_state rc; rec_stream := rec_stream rc;
                     chunks := chunks rc ++ [data] |}]> (recorders w)) w
    | None => w
    end
  else w.

(** [mediaRecorder.onstop] of recorder [i]: the chunks become one blob,
    handed to a [FileReader]. *)
Definition onstop (i : nat) (w : World) : World :=
  match recorders w !! i with
  | Some rc => emit (EReadAsDataURL (String.concat "" (chunks rc))) w
  | None => w
  end.

(** [wsRef.current?.readyState === WebSocket.OPEN] *)
Definition channel_open (w : World) : bool :=
  match wsRef w with
  | Some i =>
      match sockets w !! i with
      | Some ws => match readyState ws with OPEN => true | _ => false end
      | None => false
      end
  | None => false
  end.

(** [reader.onloadend], with [result] the data URL that was read. *)
Definition onloadend (result : string) (w : World) : Outcome :=
  let base64 :=
    match split "," result !! 1 with
    | Some s => JStr s
    | None => JUndefined
    end in
  if channel_open w then
    match wsRef w with
    | Some i => ws_send i (OutAudio base64 "audio/webm") w
    | None => Returned w
    end
  else Returned w.

(** [if (mediaRecorderRef.current?.state === 'recording')
      mediaRecorderRef.current.stop()] *)
Definition stop_if_recording (w : World) : World :=
  match mediaRecorderRef w with
  | Some i =>
      match recorders w !! i with
      | Some rc =>
          match rec_state rc with
          | recording => recorder_stop i w
          | inactive => w
          end
      | None => w
      end
  | None => w
  end.

(** [if (streamRef.current)
      streamRef.current.getTracks().forEach(track => track.stop())] *)
Definition stop_stream_tracks (w : World) : World :=
  match streamRef w with
  | Some sid => stop_tracks sid w
  | None => w
  end.

(** [stopRecording] *)
Definition stopRecording (w : World) : World :=
  let w := stop_if_recording w in
  let w := stop_stream_tracks w in
  setIsRecording false w.

(** [sendTextMessage] *)
Definition sendTextMessage (r : Hooks) (w : World) : Outcome :=
  match wsRef w with
  | Some i =>
      if trim_is_empty (textInput r) then Returned w
      else
        do w <- ws_send i (OutText (textInput r)) w;
        let w := setTranscripts (fun prev =>
                   prev ++ [ {| role := user; text := JStr (textInput r);
                                isTemp := false |} ]) w in
        Returned (setTextInput "" w)
  | None => Returned w
  end.

(** [synthRef.current?.cancel()] *)
Definition cancel_speech (w : World) : World :=
  match synthRef w with
  | Some synth => synth_cancel synth w
  | None => w
  end.

(** [if (wsRef.current) { wsRef.current.send(...'end'...);
      wsRef.current.close(); }] *)
Definition end_channel (w : World) : Outcome :=
  match wsRef w with
  | Some i =>
      do w <- ws_send i OutEnd w;
      Returned (ws_close i w)
  | None => Returned w
  end.

(** [endSession] *)
Definition endSession (w : World) : Outcome :=
  let w := stopRecording w in
  let w := cancel_speech w in
  do w <- end_channel w;
  Returned (setView summary w).

(** The cleanup of the unmount effect. *)
Definition unmount (w : World) : World :=
  let w := stopRecording w in
  let w := match wsRef w with Some i => ws_close i w | None => w end in
  cancel_speech w.

(** ** Controls of the rendered views; [r] is the render on screen *)

(** Start Mission button: [onClick={startSession}],
    [disabled={!selectedMission}]. *)
Definition startMission_onClick (r : Hooks) (w : World) : World :=
  match selectedMission r with
  | None => w
  | Some _ => startSession r w
  end.

(** Mute button: [onClick={() => setIsMuted(!isMuted)}]. *)
Definition mute_onClick (r : Hooks) (w : World) : World :=
  setIsMuted (negb (isMuted r)) w.

(** Mic button: [onClick={isRecording ? stopRecording : startRecording}]. *)
Definition mic_onClick (r : Hooks) (w : World) : World :=
  if isRecording r then stopRecording w else startRecording w.

(** End button: [onClick={endSession}]. *)
Definition end_onClick (w : World) : Outcome := endSession w.

(** Text field: [onChange={(e) => setTextInput(e.target.value)}]. *)
Definition textInput_onChange (value : string) (w : World) : World :=
  setTextInput value w.

(** Text field: [onKeyPress={(e) => e.key === 'Enter' && sendTextMessage()}]. *)
Definition textInput_onKeyPress (r : Hooks) (key : string) (w : World)
    : Outcome :=
  if String.eqb key "Enter" then sendTextMessage r w else Returned w.

(** Send button: [onClick={sendTextMessage}],
    [disabled={!textInput.trim()}]. *)
Definition send_onClick (r : Hooks) (w : World) : Outcome :=
  if trim_is_empty (textInput r) then Returned w else sendTextMessage r w.

(** Language, mode and mission pickers of the setup view. *)
Definition language_onClick (lang : Language) (w : World) : World :=
  setSelectedLanguage lang w.

Definition mode_onClick (m : string) (w : World) : World := setMode m w.

Definition mission_onSelect (mission : Mission) (w : World) : World :=
  setSelectedMission (Some mission) w.

(** Try Another Mission button. *)
Definition restart_onClick (w : World) : World :=
  setSelectedMission None (setTranscripts (fun _ => []) (setView setup w)).

(** The component as first mounted. *)
Definition initial_hooks : Hooks :=
  {| view := setup; missions := []; selectedMission := None;
     selectedLanguage :=
       hd {| lang_code := ""; lang_name := ""; lang_flag := "" |} LANGUAGES;
     mode := "teacher"; sessionId := JNull; isConnected := false;
     isRecording := false; isMuted := false; transcripts := [];
     error := JNull; textInput := "" |}.

Definition initial_world (synth : option SpeechSynthesis)
    (protocol host : string) : World :=
  {| hooks := initial_hooks; wsRef := None; mediaRecorderRef := None;
     audioContextRef := None; streamRef := None; synthRef := synth;
     sockets := []; recorders := []; streams := []; audioContexts := 0;
     location_protocol := protocol; location_host := host; effects := [] |}.

(** ** Events raised by the browser *)

Definition set_readyState (i : nat) (st : ReadyState) (w : World) : World :=
  match sockets w !! i with
  | Some ws =>
      set_sockets
        (<[i := {| readyState := st; transmitted := transmitted ws;
                   captured := captured ws |}]> (sockets w)) w
  | None => w
  end.

(** Socket [i] finishes connecting: it becomes [OPEN], then [onopen] runs. *)
Definition open_event (i : nat) (w : World) : World :=
  ws_onopen (set_readyState i OPEN w).

(** Socket [i] is closed: it becomes [CLOSED], then [onclose] runs. *)
Definition close_event (i : nat) (w : World) : World :=
  ws_onclose (set_readyState i CLOSED w).

(** ** A sample session, built with the handlers themselves *)

Module Sample.

Definition m1 : Mission :=
  {| mission_id := "m1"; mission_title := "Order a coffee";
     mission_difficulty := "beginner"; mission_situation := "At a cafe";
     mission_objectives := ["Greet"; "Order"];
     mission_estimatedMinutes := 5 |}.

Definition spanish : Language :=
  {| lang_code := "es"; lang_name := "Spanish"; lang_flag := "🇪🇸" |}.

Definition synth0 : SpeechSynthesis :=
  {| voices := [ {| voice_lang := "en-US"; voice_name := "Alex" |};
                 {| voice_lang := "es-ES"; voice_name := "Monica" |} ];
     queue := [] |}.

Definition msg0 : Msg :=
  {| msg_type := JUndefined; msg_text := JUndefined;
     msg_data := JUndefined; msg_is_final := JUndefined;
     msg_message := JUndefined; msg_session_id := JUndefined |}.

Definition typed (type : string) : Msg :=
  {| msg_type := JStr type; msg_text := JUndefined;
     msg_data := JUndefined; msg_is_final := JUndefined;
     msg_message := JUndefined; msg_session_id := JUndefined |}.

Definition input_transcript (text : string) (is_final : bool) : Msg :=
  {| msg_type := JStr "input_transcript"; msg_text := JStr text;
     msg_data := JUndefined; msg_is_final := JBool is_final;
     msg_message := JUndefined; msg_session_id := JUndefined |}.

Definition output_transcript (text : string) : Msg :=
  {| msg_type := JStr "output_transcript"; msg_text := JStr text;
     msg_data := JUndefined; msg_is_final := JUndefined;
     msg_message := JUndefined; msg_session_id := JUndefined |}.

(** Mounted, missions loaded, Spanish and mission [m1] selected. *)
Definition ready : World :=
  mission_onSelect m1
    (language_onClick spanish
      (missions_loaded [m1]
        (mount (initial_world (Some synth0) "https:" "hub.test")))).

(** Start Mission pressed, session [s1] created, socket 0 opened. *)
Definition connected : World :=
  open_event 0
    (startSession_resume (hooks ready) (Created (JStr "s1") Constructed)
      (startMission_onClick (hooks ready) ready)).

(** Mic pressed and granted: recorder 0 records stream 0. *)
Definition capturing : World :=
  startRecording_granted 1 true (mic_onClick (hooks connected) connected).

(** An assistant line arrives and is being spoken while capture runs. *)
Definition speaking : World :=
  ws_onmessage 0 (output_transcript "Hola") capturing.

End Sample.


(** ** The rest of the component *)

(** [speechSynthesis] finishes the utterance at the head of its queue. *)
Definition utterance_ended (w : World) : World :=
  match synthRef w with
  | Some s => set_synth (Some {| voices := voices s; queue := tail (queue s) |}) w
  | None => w
  end.

(** [MissionCard]: the card is highlighted when
    [selected?.id === mission.id]. *)
Definition MissionCard_highlighted (selected : option Mission)
    (mission : Mission) : bool :=
  match selected with
  | Some s => String.eqb (mission_id s) (mission_id mission)
  | None => false
  end.

(** [MissionCard]: the colour classes of the difficulty badge. *)
Definition MissionCard_badge (mission : Mission) : string :=
  if String.eqb (mission_difficulty mission) "beginner"
  then "bg-green-500/20 text-green-400"
  else if String.eqb (mission_difficulty mission) "intermediate"
  then "bg-yellow-500/20 text-yellow-400"
  else "bg-red-500/20 text-red-400".

(** [LiveTranscript]: the side a bubble is drawn on, and whether it is
    dimmed ([t.isTemp ? 'opacity-60' : '']). *)
Definition LiveTranscript_side (t : TranscriptEntry) : string :=
  match role t with
  | user => "justify-end"
  | assistant => "justify-start"
  end.

Definition LiveTranscript_dimmed (t : TranscriptEntry) : bool := isTemp t.

(** ** The caller: [App] in [frontend/src/App.jsx] *)

Record Feature := {
  feature_id : string;
  feature_name : string;
  feature_color : string;
  feature_description : string
}.

Definition FEATURES : list Feature :=
  [ {| feature_id := "voice"; feature_name := "Languages";
       feature_color := "from-purple-600 to-pink-600";
       feature_description := "Learn languages with voice" |};
    {| feature_id := "documents"; feature_name := "Documents";
       feature_color := "from-green-500 to-emerald-600";
       feature_description := "Chat with your PDFs" |};
    {| feature_id := "search"; feature_name := "Search";
       feature_color := "from-blue-500 to-cyan-600";
       feature_description := "Search the web" |};
    {| feature_id := "youtube"; feature_name := "YouTube";
       feature_color := "from-red-500 to-red-600";
       feature_description := "Chat with videos" |};
    {| feature_id := "image"; feature_name := "Images";
       feature_color := "from-purple-500 to-pink-600";
       feature_description := "Generate images" |};
    {| feature_id := "vision"; feature_name := "Vision";
       feature_color := "from-cyan-500 to-blue-600";
       feature_description := "Analyze images" |} ].

(** The components [renderFeatureModal] can return. *)
Inductive Modal :=
| VoiceChatModal
| DocumentChatModal
| WebSearchModal
| YouTubeChatModal
| ImageGeneratorModal
| VisionAnalysisModal.

(** [renderFeatureModal], a [switch] on the [activeFeature] hook. *)
Definition renderFeatureModal (activeFeature : option string)
    : option Modal :=
  match activeFeature with
  | Some id =>
      if String.eqb id "voice" then Some VoiceChatModal
      else if String.eqb id "documents" then Some DocumentChatModal
      else if String.eqb id "search" then Some WebSearchModal
      else if String.eqb id "youtube" then Some YouTubeChatModal
      else if String.eqb id "image" then Some ImageGeneratorModal
      else if String.eqb id "vision" then Some VisionAnalysisModal
      else None
  | None => None
  end.

(** [{activeFeature && renderFeatureModal()}] *)
Definition App_modal (activeFeature : option string) : option Modal :=
  match activeFeature with
  | Some id => if String.eqb id "" then None else renderFeatureModal activeFeature
  | None => None
  end.

(** Feature button: [onClick={() => setActiveFeature(feature.id)}]. *)
Definition feature_onClick (feature : Feature) : option string :=
  Some (feature_id feature).

(** [onClose={() => setActiveFeature(null)}] *)
Definition onClose : option string := None.

(** ** Runs of the component

    One step is one handler run to completion: a control of the view on
    screen being used (with the render on screen as its closure), or a
    callback being invoked by the browser.  The continuations of
    [startSession] and [startRecording] may resume at any later step, the
    former with the closure of any render. *)
Inductive Step : World -> World -> Prop :=
| step_missions_loaded ms w :
    Step w (missions_loaded ms w)
| step_missions_failed w :
    Step w (missions_failed w)
| step_language lang w :
    view (hooks w) = setup -> In lang LANGUAGES ->
    Step w (language_onClick lang w)
| step_mode m w :
    view (hooks w) = setup -> m = "teacher" \/ m = "immersive" ->
    Step w (mode_onClick m w)
| step_mission mission w :
    view (hooks w) = setup -> In mission (missions (hooks w)) ->
    Step w (mission_onSelect mission w)
| step_start w :
    view (hooks w) = setup ->
    Step w (startMission_onClick (hooks w) w)
| step_response r resp w :
    Step w (startSession_resume r resp w)
| step_open i ws w :
    sockets w !! i = Some ws -> readyState ws = CONNECTING ->
    Step w (open_event i w)
| step_message i ws msg w :
    sockets w !! i = Some ws ->
    readyState ws = OPEN \/ readyState ws = CLOSING ->
    Step w (ws_onmessage i msg w)
| step_error i ws w :
    sockets w !! i = Some ws ->
    Step w (ws_onerror w)
| step_close i ws w :
    sockets w !! i = Some ws -> readyState ws <> CLOSED ->
    Step w (close_event i w)
| step_mute w :
    view (hooks w) = active ->
    Step w (mute_onClick (hooks w) w)
| step_mic w :
    view (hooks w) = active ->
    Step w (mic_onClick (hooks w) w)
| step_granted ntracks webm w :
    Step w (startRecording_granted ntracks webm w)
| step_denied w :
    Step w (startRecording_denied w)
| step_data i rc data w :
    recorders w !! i = Some rc ->
    Step w (ondataavailable i data w)
| step_stop i rc w :
    recorders w !! i = Some rc -> rec_state rc = inactive ->
    Step w (onstop i w)
| step_loadend result w :
    Step w (world_of (onloadend result w))
| step_spoken w :
    Step w (utterance_ended w)
| step_text value w :
    view (hooks w) = active ->
    Step w (textInput_onChange value w)
| step_key key w :
    view (hooks w) = active ->
    Step w (world_of (textInput_onKeyPress (hooks w) key w))
| step_send w :
    view (hooks w) = active ->
    Step w (world_of (send_onClick (hooks w) w))
| step_end w :
    view (hooks w) = active ->
    Step w (world_of (end_onClick w))
| step_restart w :
    view (hooks w) = summary ->
    Step w (restart_onClick w).

(** The worlds a mounted component can be in. *)
Inductive Reachable : World -> Prop :=
| reach_mount synth protocol host :
    Reachable (mount (initial_world synth protocol host))
| reach_step w w' :
    Reachable w -> Step w w' -> Reachable w'.
(** * Vocabulary of the properties *)

(** The [case] labels of [handleWebSocketMessage]. *)
Definition dispatched_types : list string :=
  [ "connected"; "input_transcript"; "output_transcript"; "text";
    "turn_complete"; "error"; "session_ended" ].

(** The messages of a socket delivered in order to one handler closure. *)
Definition deliver (r : Hooks) (msgs : list Msg) (w : World) : World :=
  fold_left (fun w msg => handleWebSocketMessage r msg w) msgs w.

(** An [input_transcript] event with the given [is_final] flag. *)
Definition is_input_transcript (is_final : bool) (msg : Msg) : Prop :=
  msg_type msg = JStr "input_transcript" /\ msg_is_final msg = JBool is_final.

(** A report of a condition to the user or the log: the [error] hook
    changes, or a call into the browser (console included) is made. *)
Definition surfaced (before after : World) : Prop :=
  error (hooks after) <> error (hooks before) \/
  effects after <> effects before.

(** A JSON field that is absent, or the empty string. *)
Definition absent_or_empty (v : jsval) : Prop :=
  v = JUndefined \/ v = JStr "".

(** An inbound assistant message: [output_transcript] or [text]. *)
Definition is_assistant_message (msg : Msg) : Prop :=
  msg_type msg = JStr "output_transcript" \/ msg_type msg = JStr "text".

(** The non-empty string [t] an assistant message holds: in [text], or in
    [data] when [text] is absent or empty. *)
Definition carries (msg : Msg) (t : string) : Prop :=
  t <> "" /\
  (msg_text msg = JStr t \/
   (absent_or_empty (msg_text msg) /\ msg_data msg = JStr t)).

Definition assistant_entry (t : string) : TranscriptEntry :=
  {| role := assistant; text := JStr t; isTemp := false |}.

(** The texts handed to [synth.speak], in call order. *)
Fixpoint spoken (es : list Effect) : list jsval :=
  match es with
  | [] => []
  | ESynthSpeak u :: es' => utt_text u :: spoken es'
  | _ :: es' => spoken es'
  end.

(** The utterances queued in the synthesiser; the head is being spoken. *)
Definition playing (w : World) : list Utterance :=
  match synthRef w with
  | Some s => queue s
  | None => []
  end.

(** The capture the refs point to is stopped: the recorder is not recording,
    every track of the stream has ended, and the hook says so. *)
Definition capture_stopped (w : World) : Prop :=
  (forall i rc, mediaRecorderRef w = Some i -> recorders w !! i = Some rc ->
                rec_state rc = inactive) /\
  (forall sid tracks, streamRef w = Some sid ->
                      streams w !! sid = Some tracks ->
                      Forall (fun t => t = ended) tracks) /\
  isRecording (hooks w) = false.


(** What socket [i] has transmitted so far. *)
Definition sent_on (i : nat) (w : World) : list OutMsg :=
  match sockets w !! i with
  | Some ws => transmitted ws
  | None => []
  end.

(** Calls that release the microphone or the speaker. *)
Definition is_release (e : Effect) : Prop :=
  match e with
  | ERecorderStop _ | ETrackStop _ _ | ESynthCancel => True
  | _ => False
  end.

(** Calls on the channel. *)
Definition is_channel_call (e : Effect) : Prop :=
  match e with
  | EWsSend _ _ | EWsClose _ => True
  | _ => False
  end.

(** The state one can observe: everything but the log of calls made. *)
Definition observe (w : World) : World := set_effects [] w.

(** The socket the ref points to, if any, is closing or closed. *)
Definition channel_closing (w : World) : Prop :=
  forall i ws, wsRef w = Some i -> sockets w !! i = Some ws ->
               readyState ws = CLOSING \/ readyState ws = CLOSED.

(** The end state [endSession] aims at. *)
Definition session_over (w : World) : Prop :=
  capture_stopped w /\ playing w = [] /\ channel_closing w /\
  view (hooks w) = summary.


(** No recorder records and no track is live any more. *)
Definition microphone_free (w : World) : Prop :=
  (forall j rc, recorders w !! j = Some rc -> rec_state rc = inactive) /\
  (forall sid tracks, streams w !! sid = Some tracks -> ~ In live tracks).

(** ** Scenarios the properties are evaluated on *)

Module Scenario.

(** The session of [Sample.speaking] after the server's [session_ended]. *)
Definition server_ended : World :=
  ws_onmessage 0 (Sample.typed "session_ended") Sample.speaking.

(** End pressed while recording; the recorder then delivers its data and
    stops, and the reader finishes with this data URL. *)
Definition ended_locally : World := world_of (end_onClick Sample.speaking).


Definition data_url : string := "data:audio/webm;base64,QUJD".

(** The server closes the socket of [Sample.connected]; the view stays
    [active], and the user types a line. *)
Definition typed_after_close : World :=
  textInput_onChange "hola" (close_event 0 Sample.connected).

(** The mic is granted a second time while recorder 0 is recording. *)
Definition second_capture : World :=
  startRecording_granted 1 true (startRecording Sample.capturing).

(** The server closes the socket while recorder 0 records: [onclose] resets
    the [isRecording] hook, the recorder keeps running.  The mic control,
    now showing "start", is pressed and granted. *)
Definition capture_after_close : World :=
  startRecording_granted 1 true
    (mic_onClick (hooks (close_event 0 Sample.capturing))
       (close_event 0 Sample.capturing)).

(** Start Mission pressed twice before the first response: two sessions
    are created, the ref ends on socket 1, and socket 0 opens first. *)
Definition first_click : World :=
  startMission_onClick (hooks Sample.ready) Sample.ready.

Definition second_click : World :=
  startMission_onClick (hooks first_click) first_click.

Definition double_start : World :=
  open_event 0
    (startSession_resume (hooks first_click)
       (Created (JStr "s2") Constructed)
       (startSession_resume (hooks Sample.ready)
          (Created (JStr "s1") Constructed)
          second_click)).

End Scenario.


(** * Vocabulary of the further properties *)

(** The blobs a recorder delivers, handed in order to [ondataavailable]. *)
Definition deliver_data (i : nat) (blobs : list string) (w : World) : World :=
  fold_left (fun w data => ondataavailable i data w) blobs w.

(** [c] occurs in [s]. *)
Fixpoint occurs (c : ascii) (s : string) : bool :=
  match s with
  | EmptyString => false
  | String c' s' => Ascii.eqb c' c || occurs c s'
  end.

(** No ref dangles: each points at an object of its store. *)
Definition refs_in_range (w : World) : Prop :=
  (forall i, wsRef w = Some i -> i < length (sockets w)) /\
  (forall i, mediaRecorderRef w = Some i -> i < length (recorders w)) /\
  (forall i, streamRef w = Some i -> i < length (streams w)).

(** Once a socket was created, the ref holds one. *)
Definition channel_known (w : World) : Prop :=
  (view (hooks w) <> setup \/ sockets w <> []) -> wsRef w <> None.

(** What every reachable world satisfies. *)
Definition Inv (w : World) : Prop :=
  refs_in_range w /\ channel_known w /\
  Forall (fun t => isTemp t = false) (transcripts (hooks w)).

(** ** Further scenarios *)

Module More.

(** Mounted, catalog loaded, Spanish picked, no mission selected yet. *)
Definition no_mission : World :=
  language_onClick Sample.spanish
    (missions_loaded [Sample.m1]
      (mount (initial_world (Some Sample.synth0) "https:" "hub.test"))).

(** A line, and white space only, typed into the connected session. *)
Definition typed_hola : World := textInput_onChange "hola" Sample.connected.

Definition typed_blank : World := textInput_onChange "  " Sample.connected.

(** A tab, a no-break space (U+00A0), an ideographic space (U+3000) and a
    byte order mark (U+FEFF) typed into the connected session. *)
Definition unicode_blank : string :=
  String (ascii_of_nat 9)
    (String (ascii_of_nat 194) (String (ascii_of_nat 160)
    (String (ascii_of_nat 227) (String (ascii_of_nat 128) (String (ascii_of_nat 128)
    (String (ascii_of_nat 239) (String (ascii_of_nat 187) (String (ascii_of_nat 191)
     EmptyString)))))))).

Definition typed_unicode_blank : World :=
  textInput_onChange unicode_blank Sample.connected.

(** The server closes the socket while recorder 0 of [Sample.capturing]
    records; the mic control, showing "start" again, is then pressed. *)
Definition closed_while_recording : World := close_event 0 Sample.capturing.

Definition pressed_again : World :=
  mic_onClick (hooks closed_while_recording) closed_while_recording.


End More.

(** The tag of voice [v] starts with the code of the language selected in
    render [r]: the test of [voices.find] in [speakText]. *)
Definition voice_fits (r : Hooks) (v : Voice) : bool :=
  String.prefix (lang_code (selectedLanguage r)) (voice_lang v).

(** The code points [String.prototype.trim] removes: WhiteSpace (TAB, VT,
    FF, ZWNBSP and the space separators of Unicode) and LineTerminator (LF,
    CR, LS, PS) of ECMAScript. *)
Definition WhiteSpace : list N :=
  [ 0x0009; 0x000A; 0x000B; 0x000C; 0x000D; 0x0020; 0x00A0; 0x1680;
    0x2000; 0x2001; 0x2002; 0x2003; 0x2004; 0x2005; 0x2006; 0x2007;
    0x2008; 0x2009; 0x200A; 0x2028; 0x2029; 0x202F; 0x205F; 0x3000;
    0xFEFF ]%N.

(** The UTF-8 encoding of a code point below U+10000. *)
Definition utf8 (cp : N) : string :=
  if (cp <? 0x80)%N then String (ascii_of_N cp) ""
  else if (cp <? 0x800)%N then
    String (ascii_of_N (0xC0 + cp / 64))
      (String (ascii_of_N (0x80 + cp mod 64)) "")
  else
    String (ascii_of_N (0xE0 + cp / 4096))
      (String (ascii_of_N (0x80 + (cp / 64) mod 64))
         (String (ascii_of_N (0x80 + cp mod 64)) "")).

(** The string that encodes the code points [cps] one after the other. *)
Fixpoint utf8_string (cps : list N) : string :=
  match cps with
  | [] => ""
  | cp :: cps' => (utf8 cp ++ utf8_string cps')%string
  end.

(** The bodies of the session requests among the calls [es], in order. *)
Fixpoint session_requests (es : list Effect) : list SessionRequest :=
  match es with
  | [] => []
  | EFetch _ body :: es' => body :: session_requests es'
  | _ :: es' => session_requests es'
  end.

(** The request names a mission and the fixed source language. *)
Definition well_formed_request (body : SessionRequest) : Prop :=
  (exists id, req_mission_id body = JStr id) /\
  req_from_language body = "English".

(** Calls an inbound message may cause: console output and speech. *)
Definition is_log_or_speech (e : Effect) : Prop :=
  match e with
  | EConsoleLog _ _ | ESynthCancel | ESynthSpeak _ => True
  | _ => False
  end.

(** The entry [t] was taken from message [msg]: not dimmed, and its text is
    the message's [text] or [data]. *)
Definition entry_from (msg : Msg) (t : TranscriptEntry) : Prop :=
  isTemp t = false /\ (text t = msg_text msg \/ text t = msg_data msg).

(** [w'] has the objects and refs of [w]: no object was created, no ref
    was moved, the transcript is the one of [w] followed by undimmed
    entries, and every socket holds the handler closure it held. *)
Definition same_shape (w w' : World) : Prop :=
  length (sockets w') = length (sockets w) /\
  wsRef w' = wsRef w /\
  length (recorders w') = length (recorders w) /\
  mediaRecorderRef w' = mediaRecorderRef w /\
  length (streams w') = length (streams w) /\
  streamRef w' = streamRef w /\
  (exists added,
     transcripts (hooks w') = transcripts (hooks w) ++ added /\
     Forall (fun t => isTemp t = false) added) /\
  captured <$> sockets w' = captured <$> sockets w.
(** * Properties *)

(** ** Bookkeeping about field updates *)

Lemma with_hooks_id (w : World) : with_hooks (fun h => h) w = w.
Proof. by destruct w. Qed.

Lemma setTranscripts_id (w : World) : setTranscripts (fun prev => prev) w = w.
Proof. destruct w as [h ????????????]. by destruct h. Qed.

Lemma effects_emit (e : Effect) (w : World) :
  effects (emit e w) = effects w ++ [e].
Proof. reflexivity. Qed.

Lemma effects_with_hooks (f : Hooks -> Hooks) (w : World) :
  effects (with_hooks f w) = effects w.
Proof. reflexivity. Qed.

(** ** Inbound dispatch *)

Lemma deliver_app (r : Hooks) (xs ys : list Msg) (w : World) :
  deliver r (xs ++ ys) w = deliver r ys (deliver r xs w).
Proof. apply fold_left_app. Qed.

Lemma interim_transcript_ignored (r : Hooks) (msg : Msg) (w : World) :
  is_input_transcript false msg -> handleWebSocketMessage r msg w = w.
Proof.
  intros [Ht Hf]. unfold handleWebSocketMessage. rewrite Ht, Hf. simpl.
  apply setTranscripts_id.
Qed.

Lemma interim_transcripts_ignored (r : Hooks) (msgs : list Msg) (w : World) :
  Forall (is_input_transcript false) msgs -> deliver r msgs w = w.
Proof.
  induction 1 as [|msg msgs Hm _ IH]; simpl; [done|].
  by rewrite (interim_transcript_ignored _ _ _ Hm).
Qed.

Lemma final_transcript_appended (r : Hooks) (msg : Msg) (w : World) :
  is_input_transcript true msg ->
  handleWebSocketMessage r msg w =
  setTranscripts (fun prev =>
    prev ++ [ {| role := user; text := msg_text msg; isTemp := false |} ]) w.
Proof.
  intros [Ht Hf]. unfold handleWebSocketMessage. by rewrite Ht, Hf.
Qed.

(** C4. Any number of [input_transcript] events with [is_final = false]
    followed by one with [is_final = true] appends exactly one entry, of role
    [user], whose text is the final event's text; the interim events alone
    leave the world, and so the transcript, as it was. *)
Theorem C4_final_transcript_appends_one_user_entry
    (r : Hooks) (interim : list Msg) (final : Msg) (w : World) :
  Forall (is_input_transcript false) interim ->
  is_input_transcript true final ->
  deliver r interim w = w /\
  transcripts (hooks (deliver r (interim ++ [final]) w)) =
  transcripts (hooks w) ++
  [ {| role := user; text := msg_text final; isTemp := false |} ].
Proof.
  intros Hi Hf. split; [by apply interim_transcripts_ignored|].
  rewrite deliver_app, (interim_transcripts_ignored _ _ _ Hi). simpl.
  by rewrite (final_transcript_appended _ _ _ Hf).
Qed.

Lemma C4_witness :
  deliver (hooks Sample.connected)
    [Sample.input_transcript "Ho" false; Sample.input_transcript "Hol" false]
    Sample.connected = Sample.connected /\
  transcripts (hooks (deliver (hooks Sample.connected)
    ([Sample.input_transcript "Ho" false; Sample.input_transcript "Hol" false]
       ++ [Sample.input_transcript "Hola" true]) Sample.connected)) =
  transcripts (hooks Sample.connected) ++
  [ {| role := user; text := JStr "Hola"; isTemp := false |} ].
Proof.
  apply (C4_final_transcript_appends_one_user_entry
           (hooks Sample.connected)
           [Sample.input_transcript "Ho" false;
            Sample.input_transcript "Hol" false]
           (Sample.input_transcript "Hola" true) Sample.connected).
  - repeat constructor.
  - split; reflexivity.
Defined.

(** A message type the [switch] has no [case] for falls through. *)
Lemma undispatched_type_falls_through (r : Hooks) (msg : Msg) (w : World) :
  (forall type, msg_type msg = JStr type -> ~ In type dispatched_types) ->
  handleWebSocketMessage r msg w = w.
Proof.
  intros H. unfold handleWebSocketMessage.
  destruct (msg_type msg) as [| | | |type|]; try reflexivity.
  specialize (H type eq_refl). unfold dispatched_types in H. simpl in H.
  assert (Hne : forall s, In s dispatched_types -> String.eqb type s = false).
  { intros s Hs. apply String.eqb_neq. intros ->. by apply H. }
  rewrite !Hne by (simpl; tauto). reflexivity.
Qed.

(** C8 (as stated, refuted). A message of type [ping], which the dispatcher
    has no case for, is neither reported nor logged: the world after the
    handler is the world before it. *)
Lemma C8_unknown_type_not_surfaced :
  ~ In "ping" dispatched_types /\
  handleWebSocketMessage (hooks Sample.connected) (Sample.typed "ping")
    Sample.connected = Sample.connected /\
  ~ surfaced Sample.connected
      (handleWebSocketMessage (hooks Sample.connected) (Sample.typed "ping")
         Sample.connected).
Proof.
  split; [|split].
  - unfold dispatched_types. simpl. intros H.
    repeat (destruct H as [H|H]; [discriminate H|]). exact H.
  - vm_compute. reflexivity.
  - vm_compute. intros [H|H]; by apply H.
Qed.

(** C8 (amended). For every inbound message whose [type] is not a [case]
    label of the dispatcher (or is not a string at all), the handler returns
    and leaves the world exactly as it was: the message is silently ignored,
    with nothing reported and nothing logged. *)
Theorem C8_unknown_type_silently_ignored (r : Hooks) (msg : Msg) (w : World) :
  (forall type, msg_type msg = JStr type -> ~ In type dispatched_types) ->
  handleWebSocketMessage r msg w = w /\
  ~ surfaced w (handleWebSocketMessage r msg w).
Proof.
  intros H. rewrite (undispatched_type_falls_through _ _ _ H).
  split; [reflexivity|]. intros [E|E]; by apply E.
Qed.

Lemma C8_witness :
  handleWebSocketMessage (hooks Sample.speaking) (Sample.typed "audio")
    Sample.speaking = Sample.speaking /\
  ~ surfaced Sample.speaking
      (handleWebSocketMessage (hooks Sample.speaking) (Sample.typed "audio")
         Sample.speaking).
Proof.
  apply (C8_unknown_type_silently_ignored (hooks Sample.speaking)
           (Sample.typed "audio") Sample.speaking).
  intros type [= <-]. unfold dispatched_types. simpl. intros H.
  repeat (destruct H as [H|H]; [discriminate H|]). exact H.
Defined.

(** ** Assistant messages and playback *)

Lemma hooks_speakText (r : Hooks) (text : jsval) (w : World) :
  hooks (speakText r text w) = hooks w.
Proof.
  unfold speakText. destruct (synthRef w) as [s|]; [|reflexivity].
  by destruct (isMuted r).
Qed.

Lemma spoken_app (xs ys : list Effect) :
  spoken (xs ++ ys) = spoken xs ++ spoken ys.
Proof.
  induction xs as [|e xs IH]; simpl; [done|].
  destruct e; simpl; by rewrite ?IH.
Qed.

Lemma spoken_speakText (r : Hooks) (text : jsval) (w : World) :
  spoken (effects (speakText r text w)) =
  spoken (effects w) ++
  (if isMuted r then []
   else match synthRef w with Some _ => [text] | None => [] end).
Proof.
  unfold speakText. destruct (synthRef w) as [s|].
  - destruct (isMuted r); simpl; [by rewrite app_nil_r|].
    by rewrite !spoken_app, <- app_assoc.
  - destruct (isMuted r); by rewrite app_nil_r.
Qed.

Lemma truthy_nonempty (t : string) : t <> "" -> truthy (JStr t) = true.
Proof. intros H. simpl. by apply negb_true_iff, String.eqb_neq. Qed.

Lemma js_or_carried (msg : Msg) (t : string) :
  carries msg t -> js_or (msg_text msg) (msg_data msg) = JStr t.
Proof.
  intros [Ht [E|[[E|E] Ed]]]; unfold js_or; rewrite E.
  - by rewrite truthy_nonempty.
  - done.
  - done.
Qed.

Lemma assistant_message_dispatch (r : Hooks) (msg : Msg) (w : World) :
  is_assistant_message msg ->
  handleWebSocketMessage r msg w =
  let text := js_or (msg_text msg) (msg_data msg) in
  if truthy text then
    speakText r text
      (setTranscripts (fun prev =>
         prev ++ [ {| role := assistant; text := text; isTemp := false |} ]) w)
  else w.
Proof. intros [E|E]; unfold handleWebSocketMessage; by rewrite E. Qed.

(** C10. An assistant message ([output_transcript] or [text]) whose [text]
    and [data] are both absent or empty leaves the world, and so the
    transcript and the synthesiser, untouched.  When [text] holds a non-empty
    string, or [text] is absent or empty and [data] holds one, the handler is
    one [speakText] of that string on the world with exactly one assistant
    entry of that string appended; [synth.speak] receives the string once
    unless the closure is muted or the browser has no synthesiser. *)
Theorem C10_assistant_message_appends_and_speaks_once
    (r : Hooks) (msg : Msg) (w : World) :
  is_assistant_message msg ->
  (absent_or_empty (msg_text msg) -> absent_or_empty (msg_data msg) ->
   handleWebSocketMessage r msg w = w) /\
  (forall t, carries msg t ->
     handleWebSocketMessage r msg w =
       speakText r (JStr t)
         (setTranscripts (fun prev => prev ++ [assistant_entry t]) w) /\
     transcripts (hooks (handleWebSocketMessage r msg w)) =
       transcripts (hooks w) ++ [assistant_entry t] /\
     spoken (effects (handleWebSocketMessage r msg w)) =
       spoken (effects w) ++
       (if isMuted r then []
        else match synthRef w with Some _ => [JStr t] | None => [] end)).
Proof.
  intros Hm. rewrite (assistant_message_dispatch _ _ _ Hm). split.
  - intros [E|E] [E'|E']; unfold js_or; by rewrite E, ?E'.
  - intros t Ht. cbv zeta. rewrite (js_or_carried _ _ Ht).
    destruct Ht as [Ht _]. rewrite (truthy_nonempty _ Ht).
    split; [reflexivity|]. split.
    + by rewrite hooks_speakText.
    + by rewrite spoken_speakText.
Qed.

Lemma C10_witness :
  transcripts (hooks (handleWebSocketMessage (hooks Sample.ready)
    (Sample.output_transcript "Hola") Sample.capturing)) =
    [assistant_entry "Hola"] /\
  spoken (effects (handleWebSocketMessage (hooks Sample.ready)
    (Sample.output_transcript "Hola") Sample.capturing)) = [JStr "Hola"].
Proof.
  destruct (C10_assistant_message_appends_and_speaks_once
              (hooks Sample.ready) (Sample.output_transcript "Hola")
              Sample.capturing (or_introl eq_refl)) as [_ H].
  destruct (H "Hola") as (_ & Ht & Hs).
  - split; [discriminate|]. left. reflexivity.
  - split; [exact Ht | exact Hs].
Defined.

(** ** End of session *)

Lemma session_ended_sets_view_only (r : Hooks) (msg : Msg) (w : World) :
  msg_type msg = JStr "session_ended" ->
  handleWebSocketMessage r msg w = setView summary w.
Proof. intros E. unfold handleWebSocketMessage. by rewrite E. Qed.

(** C1 (the code at the failing input). With capture running and an
    utterance playing, the server's [session_ended] moves the view to
    [summary] and does nothing else: recorder 0 is still recording, the
    track of stream 0 is still live, the utterance is still queued, and no
    call into the browser is made; a local [endSession] from the same world
    stops all three. *)
Theorem C1_session_ended_leaves_audio_running :
  view (hooks Sample.speaking) = active /\
  view (hooks Scenario.server_ended) = summary /\
  isRecording (hooks Scenario.server_ended) = true /\
  rec_state <$> recorders Scenario.server_ended = [recording] /\
  streams Scenario.server_ended = [[live]] /\
  utt_text <$> playing Scenario.server_ended = [JStr "Hola"] /\
  effects Scenario.server_ended = effects Sample.speaking /\
  rec_state <$> recorders Scenario.ended_locally = [inactive] /\
  streams Scenario.ended_locally = [[ended]] /\
  playing Scenario.ended_locally = [].
Proof. repeat apply conj; vm_compute; reflexivity. Qed.

(** ** Mute *)

(** C6 (as stated, refuted). Mute is pressed while ["Hola"] is being
    spoken: the hook becomes muted, yet the utterance stays queued and
    [synth.cancel] is not called. *)
Lemma C6_mute_leaves_utterance_playing :
  isMuted (hooks Sample.speaking) = false /\
  utt_text <$> playing Sample.speaking = [JStr "Hola"] /\
  isMuted (hooks (mute_onClick (hooks Sample.speaking) Sample.speaking))
    = true /\
  utt_text <$> playing (mute_onClick (hooks Sample.speaking) Sample.speaking)
    = [JStr "Hola"] /\
  effects (mute_onClick (hooks Sample.speaking) Sample.speaking)
    = effects Sample.speaking.
Proof. repeat apply conj; vm_compute; reflexivity. Qed.

(** C6 (amended). Pressing the mute control only flips the [isMuted] hook:
    the synthesiser and its queue are untouched and no call is made, so an
    utterance in progress keeps playing; muting suppresses only later
    [speakText] calls, namely those whose closure reads [isMuted] as true. *)
Theorem C6_mute_only_suppresses_later_speech (r : Hooks) (w : World) :
  isMuted (hooks (mute_onClick r w)) = negb (isMuted r) /\
  playing (mute_onClick r w) = playing w /\
  synthRef (mute_onClick r w) = synthRef w /\
  effects (mute_onClick r w) = effects w /\
  (forall text w', isMuted r = true -> speakText r text w' = w').
Proof.
  repeat apply conj; try reflexivity. intros text w' Hm. unfold speakText. rewrite Hm.
  by destruct (synthRef w').
Qed.

Lemma C6_witness :
  speakText (hooks (mute_onClick (hooks Sample.capturing) Sample.capturing))
    (JStr "Hola") Sample.capturing = Sample.capturing.
Proof.
  apply (C6_mute_only_suppresses_later_speech
           (hooks (mute_onClick (hooks Sample.capturing) Sample.capturing))
           Sample.capturing).
  reflexivity.
Defined.

(** The socket's [onmessage] closure keeps the [isMuted] of the render that
    started the session: a line arriving after mute was pressed is still
    handed to [synth.speak]. *)
Example mute_not_seen_by_socket_closure :
  isMuted (hooks (mute_onClick (hooks Sample.capturing) Sample.capturing))
    = true /\
  spoken (effects (ws_onmessage 0 (Sample.output_transcript "Hola")
            (mute_onClick (hooks Sample.capturing) Sample.capturing)))
    = [JStr "Hola"].
Proof. split; vm_compute; reflexivity. Qed.

(** ** Session creation *)

(** C9. [startSession] is run by the Start Mission control only, which is
    disabled while no mission is selected: a press then changes nothing and
    issues no request.  With a mission selected a press issues exactly one
    session request, and its body carries the selected language's name, the
    mode and the source language ["English"] unchanged, next to the id of
    the selected mission. *)
Theorem C9_start_control_guard_and_payload (r : Hooks) (w : World) :
  (selectedMission r = None ->
     startMission_onClick r w = w /\
     effects (startMission_onClick r w) = effects w) /\
  (forall m, selectedMission r = Some m ->
     exists body,
       effects (startMission_onClick r w) =
         effects w ++ [EFetch "/api/voice/session" body] /\
       req_mission_id body = JStr (mission_id m) /\
       req_language body = lang_name (selectedLanguage r) /\
       req_mode body = mode r /\
       req_from_language body = "English").
Proof.
  split.
  - intros E. unfold startMission_onClick. by rewrite E.
  - intros m E. exists (session_request r).
    unfold startMission_onClick. rewrite E. split; [reflexivity|].
    unfold session_request. rewrite E. repeat apply conj; reflexivity.
Qed.

Lemma C9_witness :
  (startMission_onClick (hooks More.no_mission) More.no_mission
     = More.no_mission /\
   effects (startMission_onClick (hooks More.no_mission) More.no_mission)
     = effects More.no_mission) /\
  exists body,
    effects (startMission_onClick (hooks Sample.ready) Sample.ready) =
      effects Sample.ready ++ [EFetch "/api/voice/session" body] /\
    req_mission_id body = JStr (mission_id Sample.m1) /\
    req_language body = lang_name (selectedLanguage (hooks Sample.ready)) /\
    req_mode body = mode (hooks Sample.ready) /\
    req_from_language body = "English".
Proof.
  split.
  - apply (proj1 (C9_start_control_guard_and_payload
                    (hooks More.no_mission) More.no_mission)).
    reflexivity.
  - apply (proj2 (C9_start_control_guard_and_payload
                    (hooks Sample.ready) Sample.ready) Sample.m1).
    reflexivity.
Defined.

(** ** Capture *)

Lemma lookup_snoc {A} (l : list A) (x : A) : (l ++ [x]) !! length l = Some x.
Proof. by apply list_lookup_middle. Qed.




(** ** Outbound sends *)


Lemma ws_send_open (i : nat) (m : OutMsg) (w : World) (ws : WebSocket) :
  sockets w !! i = Some ws -> readyState ws = OPEN ->
  exists w', ws_send i m w = Returned w' /\
             sent_on i w' = transmitted ws ++ [m] /\
             hooks w' = hooks w.
Proof.
  intros Hl Ho. unfold ws_send. simpl. rewrite Hl, Ho.
  eexists. split; [reflexivity|]. split; [|reflexivity].
  unfold sent_on. simpl. rewrite list_lookup_insert_eq; [done|].
  by eapply lookup_lt_Some.
Qed.




(** ** [endSession]: what each statement touches *)

Section Frames.

Variable w : World.

(** Closes a conjunction of field equations that hold by computation. *)
Ltac fields :=
  repeat apply conj; first [reflexivity | assumption | symmetry; assumption].

Lemma stop_if_recording_effects :
  exists rel, effects (stop_if_recording w) = effects w ++ rel /\
              Forall is_release rel.
Proof.
  unfold stop_if_recording, recorder_stop.
  destruct (mediaRecorderRef w) as [i|]; [|exists []; by rewrite app_nil_r].
  destruct (recorders w !! i) as [rc|] eqn:E;
    [|exists []; by rewrite app_nil_r].
  destruct (rec_state rc); [exists []; by rewrite app_nil_r|].
  exists [ERecorderStop i]. simpl. rewrite E. simpl.
  split; [reflexivity|]. by repeat constructor.
Qed.

Lemma stop_if_recording_frame :
  hooks (stop_if_recording w) = hooks w /\
  wsRef (stop_if_recording w) = wsRef w /\
  mediaRecorderRef (stop_if_recording w) = mediaRecorderRef w /\
  streamRef (stop_if_recording w) = streamRef w /\
  synthRef (stop_if_recording w) = synthRef w /\
  sockets (stop_if_recording w) = sockets w /\
  streams (stop_if_recording w) = streams w.
Proof.
  unfold stop_if_recording, recorder_stop.
  destruct (mediaRecorderRef w) as [i|] eqn:Hm; [|fields].
  destruct (recorders w !! i) as [rc|] eqn:E; [|fields].
  destruct (rec_state rc); [fields|]. simpl. rewrite E. fields.
Qed.

Lemma stop_if_recording_stops (i : nat) (rc : MediaRecorder) :
  mediaRecorderRef w = Some i ->
  recorders (stop_if_recording w) !! i = Some rc ->
  rec_state rc = inactive.
Proof.
  intros Hr. unfold stop_if_recording, recorder_stop. rewrite Hr.
  destruct (recorders w !! i) as [rc0|] eqn:E.
  - destruct (rec_state rc0) eqn:Es.
    + rewrite E. by intros [= <-].
    + simpl. rewrite E. simpl.
      rewrite list_lookup_insert_eq by (by eapply lookup_lt_Some).
      by intros [= <-].
  - intros H. congruence.
Qed.

Lemma stop_stream_tracks_effects :
  exists rel, effects (stop_stream_tracks w) = effects w ++ rel /\
              Forall is_release rel.
Proof.
  unfold stop_stream_tracks, stop_tracks.
  destruct (streamRef w) as [sid|]; [|exists []; by rewrite app_nil_r].
  destruct (streams w !! sid) as [tracks|];
    [|exists []; by rewrite app_nil_r].
  eexists. split; [reflexivity|].
  apply Forall_forall. intros e He.
  apply list_elem_of_In, in_map_iff in He.
  by destruct He as (n & <- & _).
Qed.

Lemma stop_stream_tracks_frame :
  hooks (stop_stream_tracks w) = hooks w /\
  wsRef (stop_stream_tracks w) = wsRef w /\
  mediaRecorderRef (stop_stream_tracks w) = mediaRecorderRef w /\
  streamRef (stop_stream_tracks w) = streamRef w /\
  synthRef (stop_stream_tracks w) = synthRef w /\
  sockets (stop_stream_tracks w) = sockets w /\
  recorders (stop_stream_tracks w) = recorders w.
Proof.
  unfold stop_stream_tracks, stop_tracks.
  destruct (streamRef w) as [sid|] eqn:Hs; [|fields].
  destruct (streams w !! sid); fields.
Qed.

Lemma stop_stream_tracks_ends (sid : nat) (tracks : MediaStream) :
  streamRef w = Some sid ->
  streams (stop_stream_tracks w) !! sid = Some tracks ->
  Forall (fun t => t = ended) tracks.
Proof.
  intros Hr. unfold stop_stream_tracks, stop_tracks. rewrite Hr.
  destruct (streams w !! sid) as [tr0|] eqn:E.
  - simpl. rewrite list_lookup_insert_eq by (by eapply lookup_lt_Some).
    intros [= <-]. apply Forall_forall. intros t Ht.
    apply list_elem_of_In, in_map_iff in Ht. by destruct Ht as (? & <- & _).
  - intros H. congruence.
Qed.

Lemma cancel_speech_effects :
  exists rel, effects (cancel_speech w) = effects w ++ rel /\
              Forall is_release rel.
Proof.
  unfold cancel_speech, synth_cancel.
  destruct (synthRef w); [|exists []; by rewrite app_nil_r].
  exists [ESynthCancel]. split; [reflexivity|]. by repeat constructor.
Qed.

Lemma cancel_speech_frame :
  hooks (cancel_speech w) = hooks w /\
  wsRef (cancel_speech w) = wsRef w /\
  mediaRecorderRef (cancel_speech w) = mediaRecorderRef w /\
  streamRef (cancel_speech w) = streamRef w /\
  sockets (cancel_speech w) = sockets w /\
  recorders (cancel_speech w) = recorders w /\
  streams (cancel_speech w) = streams w.
Proof. unfold cancel_speech. destruct (synthRef w) eqn:Hy; fields. Qed.

Lemma cancel_speech_silences : playing (cancel_speech w) = [].
Proof.
  unfold playing, cancel_speech.
  destruct (synthRef w) eqn:E; [reflexivity|by rewrite E].
Qed.

Lemma end_channel_effects :
  exists ch, effects (world_of (end_channel w)) = effects w ++ ch /\
             Forall is_channel_call ch.
Proof.
  unfold end_channel, ws_send, ws_close.
  destruct (wsRef w) as [i|]; [|exists []; by rewrite app_nil_r]. simpl.
  destruct (sockets w !! i) as [ws|] eqn:E.
  - destruct (readyState ws) eqn:Er; simpl.
    + exists [EWsSend i OutEnd]. split; [reflexivity|].
      by repeat constructor.
    + rewrite list_lookup_insert_eq by (by eapply lookup_lt_Some). simpl.
      exists [EWsSend i OutEnd; EWsClose i].
      split; [simpl; by rewrite <- ?app_assoc|]. by repeat constructor.
    + rewrite E, Er. simpl. exists [EWsSend i OutEnd; EWsClose i].
      split; [simpl; by rewrite <- ?app_assoc|]. by repeat constructor.
    + rewrite E, Er. simpl. exists [EWsSend i OutEnd; EWsClose i].
      split; [simpl; by rewrite <- ?app_assoc|]. by repeat constructor.
  - simpl. rewrite E. exists [EWsSend i OutEnd; EWsClose i].
    split; [simpl; by rewrite <- ?app_assoc|]. by repeat constructor.
Qed.

Lemma end_channel_frame :
  hooks (world_of (end_channel w)) = hooks w /\
  wsRef (world_of (end_channel w)) = wsRef w /\
  mediaRecorderRef (world_of (end_channel w)) = mediaRecorderRef w /\
  streamRef (world_of (end_channel w)) = streamRef w /\
  synthRef (world_of (end_channel w)) = synthRef w /\
  recorders (world_of (end_channel w)) = recorders w /\
  streams (world_of (end_channel w)) = streams w.
Proof.
  unfold end_channel, ws_send, ws_close.
  destruct (wsRef w) as [i|] eqn:Hr; [|fields]. simpl.
  destruct (sockets w !! i) as [ws|] eqn:E.
  - destruct (readyState ws) eqn:Er; simpl; [fields| | |].
    + rewrite list_lookup_insert_eq by (by eapply lookup_lt_Some). fields.
    + rewrite E, Er. fields.
    + rewrite E, Er. fields.
  - simpl. rewrite E. fields.
Qed.

(** Once [end_channel] has returned, the socket is closing or closed. *)
Lemma end_channel_closing (w' : World) :
  end_channel w = Returned w' -> channel_closing w'.
Proof.
  unfold end_channel, ws_send, ws_close, channel_closing.
  destruct (wsRef w) as [i|] eqn:Hr.
  - simpl. destruct (sockets w !! i) as [ws|] eqn:E.
    + destruct (readyState ws) eqn:Er; simpl; [done| | |].
      * rewrite list_lookup_insert_eq by (by eapply lookup_lt_Some). simpl.
        intros [= <-] j ws'. simpl. rewrite Hr. intros [= <-].
        rewrite list_insert_insert_eq.
        rewrite list_lookup_insert_eq by (by eapply lookup_lt_Some).
        intros [= <-]. by left.
      * rewrite E, Er. intros [= <-] j ws'. simpl. rewrite Hr.
        intros [= <-].
        rewrite list_lookup_insert_eq by (by eapply lookup_lt_Some).
        intros [= <-]. by left.
      * rewrite E, Er. intros [= <-] j ws'. simpl. rewrite Hr.
        intros [= <-]. rewrite E. intros [= <-]. by right.
    + simpl. rewrite E. intros [= <-] j ws'. simpl. rewrite Hr.
      intros [= <-]. by rewrite E.
  - intros [= <-] j ws'. by rewrite Hr.
Qed.

End Frames.

(** ** [endSession]: release first, channel second *)

Lemma stopRecording_effects (w : World) :
  exists rel, effects (stopRecording w) = effects w ++ rel /\
              Forall is_release rel.
Proof.
  unfold stopRecording, setIsRecording. cbv zeta. rewrite effects_with_hooks.
  destruct (stop_if_recording_effects w) as (r1 & E1 & F1).
  destruct (stop_stream_tracks_effects (stop_if_recording w))
    as (r2 & E2 & F2).
  exists (r1 ++ r2). rewrite E2, E1, <- app_assoc.
  split; [reflexivity|]. by apply Forall_app.
Qed.

Lemma stopRecording_capture_stopped (w : World) :
  capture_stopped (stopRecording w).
Proof.
  unfold stopRecording. cbv zeta.
  destruct (stop_if_recording_frame w) as (_ & _ & Hm & Hs & _ & _ & _).
  destruct (stop_stream_tracks_frame (stop_if_recording w))
    as (_ & _ & Hm' & Hs' & _ & _ & Hr').
  split; [|split]; simpl.
  - intros i rc. rewrite Hm', Hm, Hr'. apply stop_if_recording_stops.
  - intros sid tracks. rewrite Hs'. intros E.
    by apply stop_stream_tracks_ends.
  - reflexivity.
Qed.

Lemma capture_stopped_frame (a b : World) :
  hooks b = hooks a -> mediaRecorderRef b = mediaRecorderRef a ->
  streamRef b = streamRef a -> recorders b = recorders a ->
  streams b = streams a -> capture_stopped a -> capture_stopped b.
Proof.
  unfold capture_stopped. intros -> -> -> -> ->. tauto.
Qed.

(** The world in which [endSession] turns to the channel. *)
Lemma released_before_channel (w : World) :
  capture_stopped (cancel_speech (stopRecording w)) /\
  playing (cancel_speech (stopRecording w)) = [].
Proof.
  split; [|apply cancel_speech_silences].
  destruct (cancel_speech_frame (stopRecording w))
    as (Hh & _ & Hm & Hs & _ & Hr & Ht).
  eapply capture_stopped_frame; [..|apply stopRecording_capture_stopped];
    done.
Qed.

Lemma endSession_cases (w : World) :
  (exists w1, end_channel (cancel_speech (stopRecording w)) = Returned w1 /\
              endSession w = Returned (setView summary w1)) \/
  (exists e w1, end_channel (cancel_speech (stopRecording w)) = Thrown e w1 /\
                endSession w = Thrown e w1).
Proof.
  unfold endSession. cbv zeta.
  destruct (end_channel (cancel_speech (stopRecording w))) as [w1|e w1].
  - left. by exists w1.
  - right. by exists e, w1.
Qed.

Lemma endSession_effects (w : World) :
  exists release channel,
    effects (world_of (endSession w)) = effects w ++ release ++ channel /\
    Forall is_release release /\ Forall is_channel_call channel.
Proof.
  destruct (stopRecording_effects w) as (r1 & E1 & F1).
  destruct (cancel_speech_effects (stopRecording w)) as (r2 & E2 & F2).
  destruct (end_channel_effects (cancel_speech (stopRecording w)))
    as (ch & E3 & F3).
  exists (r1 ++ r2), ch. split; [|split; [by apply Forall_app|done]].
  rewrite E2, E1 in E3.
  destruct (endSession_cases w) as [(w1 & Ec & ->)|(e & w1 & Ec & ->)];
    rewrite Ec in E3; simpl in *; by rewrite E3, <- !app_assoc.
Qed.

Lemma endSession_releases (w : World) :
  capture_stopped (world_of (endSession w)) /\
  playing (world_of (endSession w)) = [].
Proof.
  destruct (released_before_channel w) as [Hc Hp].
  destruct (end_channel_frame (cancel_speech (stopRecording w)))
    as (Hh & _ & Hm & Hs & Hy & Hr & Ht).
  destruct (endSession_cases w) as [(w1 & Ec & ->)|(e & w1 & Ec & ->)];
    rewrite Ec in *; simpl in *.
  - split.
    + destruct Hc as (C1 & C2 & C3). split; [|split]; simpl.
      * intros i rc. rewrite Hm, Hr. apply C1.
      * intros sid tr. rewrite Hs, Ht. apply C2.
      * by rewrite Hh.
    + unfold playing in *. simpl. by rewrite Hy.
  - split.
    + eapply capture_stopped_frame; [..|exact Hc]; done.
    + unfold playing in *. by rewrite Hy.
Qed.


Lemma endSession_closing (w w' : World) :
  endSession w = Returned w' -> channel_closing w'.
Proof.
  destruct (endSession_cases w) as [(w1 & Ec & ->)|(e & w1 & Ec & ->)];
    [|done].
  intros [= <-]. apply end_channel_closing in Ec. exact Ec.
Qed.

(** *** Release of the whole microphone *)







(** ** [endSession]: outcome and repetition *)

Lemma end_channel_returns (w : World) :
  (forall i ws, wsRef w = Some i -> sockets w !! i = Some ws ->
                readyState ws <> CONNECTING) ->
  exists w', end_channel w = Returned w'.
Proof.
  intros H. unfold end_channel, ws_send.
  destruct (wsRef w) as [i|]; [|by eexists]. simpl.
  destruct (sockets w !! i) as [ws|] eqn:E; [|by eexists].
  specialize (H i ws eq_refl E).
  destruct (readyState ws); [done|by eexists..].
Qed.

Lemma end_channel_throws (w : World) (i : nat) (ws : WebSocket) :
  wsRef w = Some i -> sockets w !! i = Some ws ->
  readyState ws = CONNECTING ->
  end_channel w = Thrown InvalidStateError (emit (EWsSend i OutEnd) w).
Proof.
  intros Hr Hl Hc. unfold end_channel, ws_send. rewrite Hr. simpl.
  by rewrite Hl, Hc.
Qed.

(** When the socket the ref points to has left [CONNECTING] (or there is
    none), [endSession] returns, in the end state it aims at. *)
Lemma endSession_returns (w : World) :
  (forall i ws, wsRef w = Some i -> sockets w !! i = Some ws ->
                readyState ws <> CONNECTING) ->
  exists w', endSession w = Returned w' /\ session_over w'.
Proof.
  intros H.
  assert (Hws : wsRef (cancel_speech (stopRecording w)) = wsRef w /\
                sockets (cancel_speech (stopRecording w)) = sockets w).
  { destruct (cancel_speech_frame (stopRecording w))
      as (_ & -> & _ & _ & -> & _ & _).
    unfold stopRecording. cbv zeta. simpl.
    destruct (stop_stream_tracks_frame (stop_if_recording w))
      as (_ & -> & _ & _ & _ & -> & _).
    by destruct (stop_if_recording_frame w) as (_ & -> & _ & _ & _ & -> & _). }
  destruct Hws as [Hr Hs].
  destruct (end_channel_returns (cancel_speech (stopRecording w))) as [w1 E1].
  { intros i ws. rewrite Hr, Hs. apply H. }
  destruct (endSession_cases w) as [(w2 & Ec & E)|(e & w2 & Ec & _)];
    [|congruence].
  exists (setView summary w2). split; [exact E|].
  destruct (endSession_releases w) as [Hc Hp]. rewrite E in Hc, Hp.
  split; [exact Hc|]. split; [exact Hp|].
  split; [by apply (endSession_closing w)|reflexivity].
Qed.

(** With the socket still connecting, [send] throws: the socket is never
    closed and the view is not changed. *)
Lemma endSession_throws (w : World) (i : nat) (ws : WebSocket) :
  wsRef w = Some i -> sockets w !! i = Some ws ->
  readyState ws = CONNECTING ->
  exists w', endSession w = Thrown InvalidStateError w' /\
             view (hooks w') = view (hooks w) /\
             sockets w' = sockets w.
Proof.
  intros Hr Hl Hc.
  destruct (cancel_speech_frame (stopRecording w))
    as (Hh & Hr' & _ & _ & Hs' & _ & _).
  assert (Hst : wsRef (stopRecording w) = wsRef w /\
                sockets (stopRecording w) = sockets w /\
                view (hooks (stopRecording w)) = view (hooks w)).
  { unfold stopRecording. cbv zeta. simpl.
    destruct (stop_stream_tracks_frame (stop_if_recording w))
      as (-> & -> & _ & _ & _ & -> & _).
    by destruct (stop_if_recording_frame w) as (-> & -> & _ & _ & _ & -> & _). }
  destruct Hst as (Hr0 & Hs0 & Hv0).
  unfold endSession. cbv zeta.
  rewrite (end_channel_throws _ i ws); [|congruence..].
  eexists. split; [reflexivity|]. simpl. split; congruence.
Qed.

(** *** A second call after a first that returned *)

Lemma observe_session_over (a b : World) :
  observe a = observe b -> session_over a -> session_over b.
Proof.
  intros E.
  pose proof (f_equal hooks E) as Hh.
  pose proof (f_equal wsRef E) as Hw.
  pose proof (f_equal mediaRecorderRef E) as Hm.
  pose proof (f_equal streamRef E) as Hs.
  pose proof (f_equal synthRef E) as Hy.
  pose proof (f_equal sockets E) as Hk.
  pose proof (f_equal recorders E) as Hr.
  pose proof (f_equal streams E) as Ht.
  simpl in *.
  unfold session_over, capture_stopped, playing, channel_closing.
  by rewrite Hh, Hw, Hm, Hs, Hy, Hk, Hr, Ht.
Qed.

Lemma ended_map_id (tracks : list TrackState) :
  Forall (fun t => t = ended) tracks -> map (fun _ => ended) tracks = tracks.
Proof. induction 1 as [|t ts -> _ IH]; simpl; by rewrite ?IH. Qed.

Section Settled.

Variable w : World.
Hypothesis over : session_over w.

Lemma settled_stop_if_recording : stop_if_recording w = w.
Proof.
  destruct over as ((Hrec & _ & _) & _).
  unfold stop_if_recording.
  destruct (mediaRecorderRef w) as [i|]; [|done].
  destruct (recorders w !! i) as [rc|] eqn:E; [|done].
  by rewrite (Hrec i rc eq_refl E).
Qed.

Lemma settled_stop_stream_tracks :
  observe (stop_stream_tracks w) = observe w.
Proof.
  destruct over as ((_ & Htr & _) & _).
  unfold stop_stream_tracks, stop_tracks.
  destruct (streamRef w) as [sid|]; [|done].
  destruct (streams w !! sid) as [tracks|] eqn:E; [|done].
  unfold observe, set_effects. simpl. f_equal.
  rewrite (ended_map_id _ (Htr sid tracks eq_refl E)).
  by apply list_insert_id.
Qed.

Lemma settled_setIsRecording : setIsRecording false w = w.
Proof.
  destruct over as ((_ & _ & Hir) & _).
  destruct w as [h ????????????]. destruct h. simpl in *. by subst.
Qed.

Lemma settled_cancel_speech : observe (cancel_speech w) = observe w.
Proof.
  destruct over as (_ & Hp & _).
  unfold cancel_speech, synth_cancel, playing in *.
  destruct (synthRef w) as [s|] eqn:E; [|done].
  unfold observe, set_effects. simpl. f_equal.
  rewrite E. destruct s. simpl in *. by subst.
Qed.

Lemma settled_end_channel :
  exists w', end_channel w = Returned w' /\ observe w' = observe w.
Proof.
  destruct over as (_ & _ & Hcl & _).
  unfold end_channel, ws_send, ws_close.
  destruct (wsRef w) as [i|] eqn:Hr; [|by eexists]. simpl.
  destruct (sockets w !! i) as [ws|] eqn:E.
  - destruct (Hcl i ws Hr E) as [Hc|Hc]; rewrite Hc; simpl;
      rewrite E, Hc; eexists; (split; [reflexivity|]);
      unfold observe, set_effects; simpl; [|done].
    f_equal. apply list_insert_id. rewrite E. f_equal.
    destruct ws. simpl in *. by subst.
  - simpl. rewrite E. by eexists.
Qed.

Lemma settled_setView : setView summary w = w.
Proof.
  destruct over as (_ & _ & _ & Hv).
  destruct w as [h ????????????]. destruct h. simpl in *. by subst.
Qed.

End Settled.

(** A world in the end state is, call log apart, a fixed point of
    [endSession]. *)
Lemma endSession_settled (w : World) :
  session_over w ->
  exists w', endSession w = Returned w' /\ observe w' = observe w.
Proof.
  intros H0. unfold endSession, stopRecording. cbv zeta.
  rewrite (settled_stop_if_recording w H0).
  pose proof (settled_stop_stream_tracks w H0) as E1.
  pose proof (observe_session_over _ _ (eq_sym E1) H0) as H1.
  rewrite (settled_setIsRecording _ H1).
  pose proof (settled_cancel_speech _ H1) as E2.
  pose proof (observe_session_over _ _ (eq_sym E2) H1) as H2.
  destruct (settled_end_channel _ H2) as (w3 & -> & E3).
  pose proof (observe_session_over _ _ (eq_sym E3) H2) as H3.
  simpl. eexists. split; [reflexivity|].
  rewrite (settled_setView _ H3). congruence.
Qed.

(** Idempotence where the first call returns: the second call returns too,
    and leaves the same observable state. *)
Lemma endSession_twice (w w1 : World) :
  endSession w = Returned w1 ->
  session_over w1 /\
  exists w2, (do x <- endSession w; endSession x) = Returned w2 /\
             observe w2 = observe w1.
Proof.
  intros E.
  assert (H1 : session_over w1).
  { destruct (endSession_releases w) as [Hc Hp]. rewrite E in Hc, Hp.
    split; [exact Hc|]. split; [exact Hp|].
    split; [by apply (endSession_closing w)|].
    destruct (endSession_cases w) as [(w' & _ & E')|(e & w' & _ & E')];
      rewrite E' in E; by inversion E. }
  split; [exact H1|]. rewrite E. simpl. by apply endSession_settled.
Qed.

(** C2 (the code at the failing input). Start Mission is pressed twice
    before the first response arrives; both sessions are created, the ref
    ends on socket 1, and socket 0 opens first, which shows the active view
    with its End button.  [endSession] then hands [end] to socket 1, still
    connecting: [send] throws, [close] and [setView('summary')] are skipped.
    The view stays [active], neither socket is closed, and a second call
    throws again. *)
Theorem C2_endSession_throws_while_connecting :
  view (hooks Scenario.double_start) = active /\
  wsRef Scenario.double_start = Some 1 /\
  readyState <$> sockets Scenario.double_start = [OPEN; CONNECTING] /\
  exists w',
    endSession Scenario.double_start = Thrown InvalidStateError w' /\
    view (hooks w') = active /\
    readyState <$> sockets w' = [OPEN; CONNECTING] /\
    effects w' =
      effects Scenario.double_start ++ [ESynthCancel; EWsSend 1 OutEnd] /\
    exists w'', endSession w' = Thrown InvalidStateError w'' /\
                view (hooks w'') = active.
Proof.
  split; [vm_compute; reflexivity|].
  split; [vm_compute; reflexivity|].
  split; [vm_compute; reflexivity|].
  eexists. split; [vm_compute; reflexivity|].
  split; [reflexivity|]. split; [reflexivity|].
  split; [vm_compute; reflexivity|].
  eexists. split; [vm_compute; reflexivity|reflexivity].
Qed.

(** * Further properties of the component *)

(** ** Playback *)

(** X1. Barge-in.  When the closure is not muted and the browser has a
    synthesiser, [speakText] leaves exactly one utterance queued, the one
    for the new text, whatever was queued or playing before; it does so by
    one [cancel] followed by one [speak], and changes nothing else: hooks,
    refs, sockets, recorders, streams and the installed voices stay. *)
Theorem X1_speakText_newest_utterance_wins
    (r : Hooks) (text : jsval) (w : World) (s : SpeechSynthesis) :
  synthRef w = Some s -> isMuted r = false ->
  exists u,
    playing (speakText r text w) = [u] /\ utt_text u = text /\
    effects (speakText r text w) = effects w ++ [ESynthCancel; ESynthSpeak u] /\
    (voices <$> synthRef (speakText r text w)) = Some (voices s) /\
    hooks (speakText r text w) = hooks w /\
    wsRef (speakText r text w) = wsRef w /\
    mediaRecorderRef (speakText r text w) = mediaRecorderRef w /\
    streamRef (speakText r text w) = streamRef w /\
    audioContextRef (speakText r text w) = audioContextRef w /\
    sockets (speakText r text w) = sockets w /\
    recorders (speakText r text w) = recorders w /\
    streams (speakText r text w) = streams w.
Proof.
  intros Hs Hm. unfold speakText. rewrite Hs, Hm. eexists.
  unfold playing, synth_speak, synth_cancel. simpl.
  rewrite <- app_assoc. repeat apply conj; reflexivity.
Qed.

Lemma X1_witness :
  exists u,
    playing (speakText (hooks Sample.ready) (JStr "Adios") Sample.speaking)
      = [u] /\ utt_text u = JStr "Adios".
Proof.
  destruct (X1_speakText_newest_utterance_wins (hooks Sample.ready)
              (JStr "Adios") Sample.speaking
              {| voices := voices Sample.synth0;
                 queue := playing Sample.speaking |})
    as (u & H1 & H2 & _).
  - vm_compute. reflexivity.
  - reflexivity.
  - exists u. split; [exact H1|exact H2].
Defined.

Lemma find_first {A} (f : A -> bool) (before : list A) (x : A)
    (after : list A) :
  (forall y, In y before -> f y = false) -> f x = true ->
  find f (before ++ x :: after) = Some x.
Proof.
  intros Hb Hx. induction before as [|y before IH]; simpl.
  - by rewrite Hx.
  - rewrite (Hb y (or_introl eq_refl)). apply IH.
    intros z Hz. apply Hb. by right.
Qed.

Lemma find_nowhere {A} (f : A -> bool) (l : list A) :
  (forall y, In y l -> f y = false) -> find f l = None.
Proof.
  intros H. induction l as [|y l IH]; simpl; [reflexivity|].
  rewrite (H y (or_introl eq_refl)). apply IH.
  intros z Hz. apply H. by right.
Qed.

(** X2. Voice choice.  The utterance [speakText] queues is given the first
    installed voice whose language tag starts with the selected language
    code; when no installed voice's tag does, it is given the first
    installed voice, [voices[0]], and no voice at all when none is
    installed.  So the voice is always an installed one, and every
    utterance has a voice whenever a voice is installed. *)
Theorem X2_speakText_voice_matches_language
    (r : Hooks) (text : jsval) (w : World) (s : SpeechSynthesis)
    (u : Utterance) :
  synthRef w = Some s -> isMuted r = false ->
  In u (playing (speakText r text w)) ->
  (forall before v after,
     voices s = before ++ v :: after ->
     (forall v', In v' before -> voice_fits r v' = false) ->
     voice_fits r v = true ->
     utt_voice u = Some v) /\
  ((forall v', In v' (voices s) -> voice_fits r v' = false) ->
   utt_voice u = head (voices s)) /\
  (voices s <> [] -> utt_voice u <> None) /\
  (forall v, utt_voice u = Some v -> In v (voices s)).
Proof.
  intros Hs Hm. unfold speakText. rewrite Hs, Hm.
  unfold playing, synth_speak, synth_cancel. simpl.
  intros [<-|[]]. simpl.
  change (fun v : Voice =>
            String.prefix (lang_code (selectedLanguage r)) (voice_lang v))
    with (voice_fits r).
  split; [|split; [|split]].
  - intros before v after E Hb Hv. rewrite E.
    by rewrite (find_first (voice_fits r) before v after Hb Hv).
  - intros Hn. by rewrite (find_nowhere (voice_fits r) (voices s) Hn).
  - intros Hne. destruct (find (voice_fits r) (voices s)); [done|].
    destruct (voices s); [done|]. simpl. done.
  - intros v. destruct (find (voice_fits r) (voices s)) as [v0|] eqn:Hf.
    + intros [= <-]. by apply find_some in Hf as [Hin _].
    + destruct (voices s) as [|v1 vs]; [done|]. simpl.
      intros [= <-]. by left.
Qed.

Lemma X2_witness :
  utt_voice {| utt_text := JStr "Hola";
               utt_voice := Some {| voice_lang := "es-ES";
                                    voice_name := "Monica" |} |}
    = Some {| voice_lang := "es-ES"; voice_name := "Monica" |}.
Proof.
  refine (proj1 (X2_speakText_voice_matches_language (hooks Sample.ready)
                   (JStr "Hola") Sample.capturing Sample.synth0
                   {| utt_text := JStr "Hola";
                      utt_voice := Some {| voice_lang := "es-ES";
                                           voice_name := "Monica" |} |}
                   _ _ _)
                [ {| voice_lang := "en-US"; voice_name := "Alex" |} ]
                {| voice_lang := "es-ES"; voice_name := "Monica" |}
                [] eq_refl _ eq_refl).
  - vm_compute. reflexivity.
  - reflexivity.
  - vm_compute. left. reflexivity.
  - intros v' [<-|[]]. vm_compute. reflexivity.
Defined.

(** ** Stopping the capture *)

Lemma observe_capture_stopped (a b : World) :
  observe a = observe b -> capture_stopped a -> capture_stopped b.
Proof.
  intros E.
  pose proof (f_equal hooks E) as Hh.
  pose proof (f_equal mediaRecorderRef E) as Hm.
  pose proof (f_equal streamRef E) as Hs.
  pose proof (f_equal recorders E) as Hr.
  pose proof (f_equal streams E) as Ht.
  simpl in *. unfold capture_stopped. by rewrite Hh, Hm, Hs, Hr, Ht.
Qed.

Lemma stopped_stop_if_recording (w : World) :
  capture_stopped w -> stop_if_recording w = w.
Proof.
  intros (Hrec & _ & _). unfold stop_if_recording.
  destruct (mediaRecorderRef w) as [i|]; [|done].
  destruct (recorders w !! i) as [rc|] eqn:E; [|done].
  by rewrite (Hrec i rc eq_refl E).
Qed.

Lemma stopped_stop_stream_tracks (w : World) :
  capture_stopped w ->
  observe (stop_stream_tracks w) = observe w /\
  exists rel, effects (stop_stream_tracks w) = effects w ++ rel /\
              Forall (fun e => exists sid n, e = ETrackStop sid n) rel.
Proof.
  intros (_ & Htr & _). unfold stop_stream_tracks, stop_tracks.
  destruct (streamRef w) as [sid|];
    [|split; [done|exists []; by rewrite app_nil_r]].
  destruct (streams w !! sid) as [tracks|] eqn:E;
    [|split; [done|exists []; by rewrite app_nil_r]].
  split.
  - unfold observe, set_effects. simpl. f_equal.
    rewrite (ended_map_id _ (Htr sid tracks eq_refl E)).
    by apply list_insert_id.
  - eexists. split; [reflexivity|]. apply Forall_forall. intros e He.
    apply list_elem_of_In, in_map_iff in He.
    destruct He as (n & <- & _). by eexists _, _.
Qed.

Lemma stopped_setIsRecording (w : World) :
  capture_stopped w -> setIsRecording false w = w.
Proof.
  intros (_ & _ & Hir).
  destruct w as [h ????????????]. destruct h. simpl in *. by subst.
Qed.

(** X3. [stopRecording] is idempotent.  A second call right after the
    first leaves the same observable state and calls [recorder.stop] no
    more: the only calls it makes are [track.stop] on the tracks that have
    already ended. *)
Theorem X3_stopRecording_idempotent (w : World) :
  observe (stopRecording (stopRecording w)) = observe (stopRecording w) /\
  exists rel,
    effects (stopRecording (stopRecording w))
      = effects (stopRecording w) ++ rel /\
    Forall (fun e => exists sid n, e = ETrackStop sid n) rel.
Proof.
  pose proof (stopRecording_capture_stopped w) as H0.
  remember (stopRecording w) as a eqn:Ea. clear Ea.
  unfold stopRecording. cbv zeta.
  rewrite (stopped_stop_if_recording a H0).
  destruct (stopped_stop_stream_tracks a H0) as (E1 & rel & Erel & Frel).
  pose proof (observe_capture_stopped _ _ (eq_sym E1) H0) as H1.
  rewrite (stopped_setIsRecording _ H1). split; [exact E1|].
  exists rel. split; [exact Erel|exact Frel].
Qed.

Lemma stopRecording_frame (w : World) :
  (forall j, mediaRecorderRef w <> Some j ->
     recorders (stopRecording w) !! j = recorders w !! j) /\
  (forall sid, streamRef w <> Some sid ->
     streams (stopRecording w) !! sid = streams w !! sid) /\
  length (recorders (stopRecording w)) = length (recorders w) /\
  length (streams (stopRecording w)) = length (streams w) /\
  mediaRecorderRef (stopRecording w) = mediaRecorderRef w /\
  streamRef (stopRecording w) = streamRef w /\
  wsRef (stopRecording w) = wsRef w /\
  sockets (stopRecording w) = sockets w /\
  synthRef (stopRecording w) = synthRef w /\
  hooks (stopRecording w) = hooks (setIsRecording false w).
Proof.
  unfold stopRecording, stop_stream_tracks, stop_tracks, stop_if_recording,
    recorder_stop. cbv zeta.
  destruct (mediaRecorderRef w) as [i|] eqn:Hm;
    [destruct (recorders w !! i) as [rc|] eqn:Er;
       [destruct (rec_state rc) eqn:Es|]|];
    simpl; rewrite ?Er; simpl;
    (destruct (streamRef w) as [sid0|] eqn:Hs;
       [destruct (streams w !! sid0) as [tr|] eqn:Et|]);
    simpl; rewrite ?Hm, ?Hs, ?length_insert;
    repeat apply conj; try reflexivity; try done;
    intros j Hj; rewrite ?list_lookup_insert_ne by congruence; reflexivity.
Qed.


(** X4. [stopRecording] touches only the capture in the refs.  Recorders
    and streams other than the ones [mediaRecorderRef] and [streamRef]
    point to are left as they are, no object is added or removed, and the
    refs, the sockets, the synthesiser and every hook but [isRecording]
    stay. *)
Theorem X4_stopRecording_touches_only_the_refs_capture (w : World) :
  (forall j, mediaRecorderRef w <> Some j ->
     recorders (stopRecording w) !! j = recorders w !! j) /\
  (forall sid, streamRef w <> Some sid ->
     streams (stopRecording w) !! sid = streams w !! sid) /\
  length (recorders (stopRecording w)) = length (recorders w) /\
  length (streams (stopRecording w)) = length (streams w) /\
  mediaRecorderRef (stopRecording w) = mediaRecorderRef w /\
  streamRef (stopRecording w) = streamRef w /\
  wsRef (stopRecording w) = wsRef w /\
  sockets (stopRecording w) = sockets w /\
  synthRef (stopRecording w) = synthRef w /\
  hooks (stopRecording w) = hooks (setIsRecording false w).
Proof. exact (stopRecording_frame w). Qed.

Lemma X4_witness :
  recorders (stopRecording Scenario.second_capture) !! 0
    = recorders Scenario.second_capture !! 0 /\
  streams (stopRecording Scenario.second_capture) !! 0
    = streams Scenario.second_capture !! 0.
Proof.
  split.
  - apply (proj1 (X4_stopRecording_touches_only_the_refs_capture
                    Scenario.second_capture)).
    vm_compute. discriminate.
  - apply (proj1 (proj2 (X4_stopRecording_touches_only_the_refs_capture
                           Scenario.second_capture))).
    vm_compute. discriminate.
Defined.

(** ** Recorded audio *)

Lemma append_empty_r (s : string) : (s ++ "")%string = s.
Proof. induction s as [|c s IH]; simpl; by rewrite ?IH. Qed.

Lemma append_assoc (a b c : string) :
  ((a ++ b) ++ c)%string = (a ++ (b ++ c))%string.
Proof. induction a as [|x a IH]; simpl; by rewrite ?IH. Qed.

Lemma concat_cons (x : string) (xs : list string) :
  String.concat "" (x :: xs) = (x ++ String.concat "" xs)%string.
Proof. destruct xs; simpl; by rewrite ?append_empty_r. Qed.

Lemma concat_app (xs ys : list string) :
  String.concat "" (xs ++ ys)
  = (String.concat "" xs ++ String.concat "" ys)%string.
Proof.
  induction xs as [|x xs IH]; [reflexivity|].
  rewrite <- app_comm_cons, !concat_cons, IH. by rewrite append_assoc.
Qed.

Lemma concat_nonempty (blobs : list string) :
  String.concat ""
    (List.filter (fun d => Nat.ltb 0 (String.length d)) blobs)
  = String.concat "" blobs.
Proof.
  induction blobs as [|d blobs IH]; [reflexivity|].
  destruct d as [|c d]; simpl List.filter.
  - by rewrite concat_cons, IH.
  - by rewrite !concat_cons, IH.
Qed.

Lemma ondataavailable_chunks (i : nat) (d : string) (w : World)
    (rc : MediaRecorder) :
  recorders w !! i = Some rc ->
  recorders (ondataavailable i d w) !! i =
    Some {| rec_state := rec_state rc; rec_stream := rec_stream rc;
            chunks := chunks rc ++
              List.filter (fun d => Nat.ltb 0 (String.length d)) [d] |} /\
  effects (ondataavailable i d w) = effects w.
Proof.
  intros Hl. unfold ondataavailable. simpl List.filter.
  destruct (Nat.ltb 0 (String.length d)).
  - rewrite Hl. simpl. split; [|reflexivity].
    apply list_lookup_insert_eq. by eapply lookup_lt_Some.
  - rewrite app_nil_r, Hl. split; [|reflexivity]. by destruct rc.
Qed.

Lemma deliver_data_chunks (i : nat) (blobs : list string) :
  forall (w : World) (rc : MediaRecorder),
    recorders w !! i = Some rc ->
    recorders (deliver_data i blobs w) !! i =
      Some {| rec_state := rec_state rc; rec_stream := rec_stream rc;
              chunks := chunks rc ++
                List.filter (fun d => Nat.ltb 0 (String.length d)) blobs |} /\
    effects (deliver_data i blobs w) = effects w.
Proof.
  induction blobs as [|d blobs IH]; intros w rc Hl.
  - simpl. rewrite app_nil_r. split; [|reflexivity]. rewrite Hl.
    by destruct rc.
  - destruct (ondataavailable_chunks i d w rc Hl) as [E1 E2].
    destruct (IH _ _ E1) as [E3 E4].
    change (deliver_data i (d :: blobs) w)
      with (deliver_data i blobs (ondataavailable i d w)).
    rewrite E3, E4, E2. split; [|reflexivity]. simpl chunks.
    rewrite <- app_assoc. f_equal. f_equal. f_equal.
    simpl. by destruct (Nat.ltb 0 (String.length d)).
Qed.

(** X5. What a recorder hands over is what gets read.  After the blobs of
    recorder [i] went through [ondataavailable] in order, the recorder holds
    its earlier chunks followed by the non-empty blobs, and [onstop] hands
    the reader one blob whose content is the earlier chunks followed by all
    delivered data, in delivery order; empty blobs are not stored and add
    nothing. *)
Theorem X5_recorded_chunks_are_read_in_order
    (i : nat) (blobs : list string) (w : World) (rc : MediaRecorder) :
  recorders w !! i = Some rc ->
  (chunks <$> recorders (deliver_data i blobs w) !! i) =
    Some (chunks rc ++
          List.filter (fun d => Nat.ltb 0 (String.length d)) blobs) /\
  effects (onstop i (deliver_data i blobs w)) =
    effects w ++
    [EReadAsDataURL
       (String.concat "" (chunks rc) ++ String.concat "" blobs)%string].
Proof.
  intros Hl. destruct (deliver_data_chunks i blobs w rc Hl) as [E1 E2].
  split; [by rewrite E1|].
  unfold onstop. rewrite E1. simpl. rewrite E2.
  by rewrite concat_app, concat_nonempty.
Qed.

Lemma X5_witness :
  effects (onstop 0 (deliver_data 0 ["AB"; ""; "C"] Sample.capturing)) =
    effects Sample.capturing ++ [EReadAsDataURL "ABC"].
Proof.
  apply (proj2 (X5_recorded_chunks_are_read_in_order 0 ["AB"; ""; "C"]
                  Sample.capturing
                  {| rec_state := recording; rec_stream := 0;
                     chunks := [] |} eq_refl)).
Defined.

(** ** The audio message *)

Lemma split_without_separator (sep : ascii) (s : string) :
  occurs sep s = false -> split sep s = [s].
Proof.
  induction s as [|c s IH]; [reflexivity|]. simpl.
  destruct (Ascii.eqb c sep); [discriminate|]. simpl.
  intros H. by rewrite (IH H).
Qed.

Lemma split_at_separator (sep : ascii) (before after : string) :
  occurs sep before = false ->
  split sep (before ++ String sep after) = before :: split sep after.
Proof.
  induction before as [|c s IH]; simpl.
  - by rewrite Ascii.eqb_refl.
  - destruct (Ascii.eqb c sep); [discriminate|]. simpl.
    intros H. by rewrite (IH H).
Qed.

(** X6. The audio message carries the base64 part of the data URL.  With
    the channel open, [onloadend] on a data URL [header,payload] (no comma
    in either part) transmits exactly one [audio] message whose [data] is
    the payload and whose [mime_type] is [audio/webm]; on a result with no
    comma the message has no [data].  In no case does [onloadend] throw or
    touch a hook. *)
Theorem X6_onloadend_sends_the_base64_payload
    (result : string) (w : World) :
  (exists w', onloadend result w = Returned w' /\ hooks w' = hooks w) /\
  (forall i ws, wsRef w = Some i -> sockets w !! i = Some ws ->
     readyState ws = OPEN ->
     (forall header payload,
        result = (header ++ "," ++ payload)%string ->
        occurs "," header = false -> occurs "," payload = false ->
        sent_on i (world_of (onloadend result w)) =
          transmitted ws ++ [OutAudio (JStr payload) "audio/webm"]) /\
     (occurs "," result = false ->
      sent_on i (world_of (onloadend result w)) =
        transmitted ws ++ [OutAudio JUndefined "audio/webm"])).
Proof.
  split.
  - unfold onloadend, channel_open.
    destruct (wsRef w) as [i|]; [|by eexists].
    destruct (sockets w !! i) as [ws|] eqn:E; [|by eexists].
    destruct (readyState ws) eqn:Er; try by eexists.
    destruct (ws_send_open i
                (OutAudio match split "," result !! 1 with
                          | Some s => JStr s
                          | None => JUndefined
                          end "audio/webm") w ws E Er) as (w' & -> & _ & Hh).
    by exists w'.
  - intros i ws Hr Hl Ho.
    assert (Hsend : forall m, sent_on i (world_of (ws_send i m w))
                              = transmitted ws ++ [m]).
    { intros m. destruct (ws_send_open i m w ws Hl Ho) as (w' & -> & Hs & _).
      exact Hs. }
    split.
    + intros header payload -> Hh Hp. unfold onloadend, channel_open.
      rewrite Hr, Hl, Ho. simpl append.
      rewrite (split_at_separator _ _ _ Hh), (split_without_separator _ _ Hp).
      simpl. apply Hsend.
    + intros Hn. unfold onloadend, channel_open. rewrite Hr, Hl, Ho.
      rewrite (split_without_separator _ _ Hn). simpl. apply Hsend.
Qed.

Lemma X6_witness :
  sent_on 0 (world_of (onloadend Scenario.data_url Sample.capturing)) =
    [] ++ [OutAudio (JStr "QUJD") "audio/webm"].
Proof.
  refine (proj1 (proj2 (X6_onloadend_sends_the_base64_payload
                          Scenario.data_url Sample.capturing)
                   0 {| readyState := OPEN; transmitted := [];
                        captured := hooks Sample.ready |} _ _ _)
            "data:audio/webm;base64" "QUJD" _ _ _).
  - reflexivity.
  - vm_compute. reflexivity.
  - reflexivity.
  - reflexivity.
  - reflexivity.
  - reflexivity.
Defined.

(** ** Typed messages *)

Lemma sendTextMessage_blank (r : Hooks) (w : World) :
  trim_is_empty (textInput r) = true -> sendTextMessage r w = Returned w.
Proof.
  intros H. unfold sendTextMessage. rewrite H. by destruct (wsRef w).
Qed.

(** X7. A typed line is sent once.  With the channel open and the input
    not blank, [sendTextMessage] transmits one [text] message carrying the
    input as typed, appends one [user] entry with it to the transcript and
    clears the input; pressed again on the next render it does nothing, so
    the line is neither sent nor shown twice. *)
Theorem X7_sendTextMessage_sends_once
    (r : Hooks) (w : World) (i : nat) (ws : WebSocket) :
  wsRef w = Some i -> sockets w !! i = Some ws -> readyState ws = OPEN ->
  trim_is_empty (textInput r) = false ->
  exists w',
    sendTextMessage r w = Returned w' /\
    sent_on i w' = transmitted ws ++ [OutText (textInput r)] /\
    transcripts (hooks w') =
      transcripts (hooks w) ++
      [ {| role := user; text := JStr (textInput r); isTemp := false |} ] /\
    textInput (hooks w') = "" /\
    sendTextMessage (hooks w') w' = Returned w'.
Proof.
  intros Hr Hl Ho Ht. unfold sendTextMessage at 1. rewrite Hr, Ht.
  destruct (ws_send_open i (OutText (textInput r)) w ws Hl Ho)
    as (w1 & -> & Hs & Hh).
  simpl. eexists. split; [reflexivity|]. split; [exact Hs|].
  split; [simpl; by rewrite Hh|]. split; [reflexivity|].
  by apply sendTextMessage_blank.
Qed.

Lemma X7_witness :
  exists w',
    sendTextMessage (hooks More.typed_hola) More.typed_hola = Returned w' /\
    sent_on 0 w' = [] ++ [OutText (textInput (hooks More.typed_hola))].
Proof.
  destruct (X7_sendTextMessage_sends_once
              (hooks More.typed_hola) More.typed_hola 0
              {| readyState := OPEN; transmitted := [];
                 captured := hooks Sample.ready |})
    as (w' & E & Hs & _).
  - reflexivity.
  - vm_compute. reflexivity.
  - reflexivity.
  - vm_compute. reflexivity.
  - exists w'. split; [exact E|exact Hs].
Defined.

(** X8. Blank input is never sent, by any path.  The Send button, the
    Enter key and [sendTextMessage] itself agree on every input, so the
    button's [disabled] adds nothing to the check inside; on an input that
    is empty or made of white space only (the white space of [trim], of
    Unicode and not of ASCII alone) all three leave the world untouched,
    and a key other than Enter does nothing. *)
Theorem X8_blank_input_is_never_sent (r : Hooks) (w : World) :
  send_onClick r w = sendTextMessage r w /\
  textInput_onKeyPress r "Enter" w = sendTextMessage r w /\
  (forall key, key <> "Enter" -> textInput_onKeyPress r key w = Returned w) /\
  (trim_is_empty (textInput r) = true ->
   sendTextMessage r w = Returned w /\ send_onClick r w = Returned w).
Proof.
  split; [|split; [|split]].
  - unfold send_onClick.
    destruct (trim_is_empty (textInput r)) eqn:E; [|reflexivity].
    symmetry. by apply sendTextMessage_blank.
  - reflexivity.
  - intros key Hk. unfold textInput_onKeyPress.
    by rewrite (proj2 (String.eqb_neq key "Enter") Hk).
  - intros E. split; [by apply sendTextMessage_blank|].
    unfold send_onClick. by rewrite E.
Qed.

Lemma X8_witness :
  textInput_onKeyPress (hooks Sample.connected) "a" Sample.connected
    = Returned Sample.connected /\
  sendTextMessage (hooks More.typed_blank) More.typed_blank
    = Returned More.typed_blank /\
  sendTextMessage (hooks More.typed_unicode_blank) More.typed_unicode_blank
    = Returned More.typed_unicode_blank.
Proof.
  split; [|split].
  - apply (proj1 (proj2 (proj2 (X8_blank_input_is_never_sent
                                  (hooks Sample.connected) Sample.connected)))).
    discriminate.
  - refine (proj1 (proj2 (proj2 (proj2 (X8_blank_input_is_never_sent
                      (hooks More.typed_blank) More.typed_blank))) _)).
    vm_compute. reflexivity.
  - refine (proj1 (proj2 (proj2 (proj2 (X8_blank_input_is_never_sent
                      (hooks More.typed_unicode_blank)
                      More.typed_unicode_blank))) _)).
    vm_compute. reflexivity.
Defined.

(** X9. A typed line on a channel that is not open.  On a socket that is
    closing or closed [sendTextMessage] returns normally: nothing is
    transmitted, yet the line is appended to the transcript and the input
    is cleared.  On a socket still connecting [send] throws, and the
    transcript and the input are left as they were. *)
Theorem X9_sendTextMessage_when_not_open
    (r : Hooks) (w : World) (i : nat) (ws : WebSocket) :
  wsRef w = Some i -> sockets w !! i = Some ws ->
  trim_is_empty (textInput r) = false ->
  (readyState ws = CLOSING \/ readyState ws = CLOSED ->
   exists w',
     sendTextMessage r w = Returned w' /\
     sockets w' = sockets w /\
     transcripts (hooks w') =
       transcripts (hooks w) ++
       [ {| role := user; text := JStr (textInput r); isTemp := false |} ] /\
     textInput (hooks w') = "") /\
  (readyState ws = CONNECTING ->
   exists w',
     sendTextMessage r w = Thrown InvalidStateError w' /\
     sockets w' = sockets w /\ hooks w' = hooks w).
Proof.
  intros Hr Hl Ht. unfold sendTextMessage, ws_send. rewrite Hr, Ht. simpl.
  rewrite Hl. split.
  - intros [-> | ->]; simpl; eexists; repeat apply conj; reflexivity.
  - intros ->. eexists. repeat apply conj; reflexivity.
Qed.

Lemma X9_witness :
  exists w',
    sendTextMessage (hooks Scenario.typed_after_close)
      Scenario.typed_after_close = Returned w' /\
    sockets w' = sockets Scenario.typed_after_close.
Proof.
  destruct (proj1 (X9_sendTextMessage_when_not_open
                     (hooks Scenario.typed_after_close)
                     Scenario.typed_after_close 0
                     {| readyState := CLOSED; transmitted := [];
                        captured := hooks Sample.ready |}
                     eq_refl eq_refl eq_refl) (or_intror eq_refl))
    as (w' & E & Hs & _).
  exists w'. split; [exact E|exact Hs].
Defined.

(** ** Creating the session *)

(** X10. A failed session request leaves the setup as it was.  When the
    request is rejected, or answered with a status that is not ok, the only
    changes of [startSession] and its continuation together are the request
    itself and the [error] hook, which holds the rejection's message,
    respectively ["Failed to create session"]: the view, the session id, the
    socket ref and the sockets are untouched, and no socket is created. *)
Theorem X10_failed_session_request_changes_only_error
    (r : Hooks) (w : World) (resp : SessionResponse) :
  (forall session_id socket, resp <> Created session_id socket) ->
  let w' := startSession_resume r resp (startSession r w) in
  error (hooks w') =
    match resp with
    | Rejected message => JStr message
    | _ => JStr "Failed to create session"
    end /\
  hooks w' = hooks (setError (error (hooks w')) w) /\
  wsRef w' = wsRef w /\ sockets w' = sockets w /\
  recorders w' = recorders w /\ streams w' = streams w /\
  effects w' =
    effects w ++ [EFetch "/api/voice/session" (session_request r)].
Proof.
  intros Hf. destruct resp as [message| |session_id socket];
    [| |by destruct (Hf session_id socket)];
    simpl; repeat apply conj; reflexivity.
Qed.

Lemma X10_witness :
  error (hooks (startSession_resume (hooks Sample.ready) NotOk
                  (startSession (hooks Sample.ready) Sample.ready)))
    = JStr "Failed to create session" /\
  view (hooks (startSession_resume (hooks Sample.ready) NotOk
                 (startSession (hooks Sample.ready) Sample.ready)))
    = setup.
Proof.
  destruct (X10_failed_session_request_changes_only_error
              (hooks Sample.ready) Sample.ready NotOk)
    as (He & Hh & _).
  - discriminate.
  - split; [exact He|]. rewrite Hh. reflexivity.
Defined.



(** ** Closing the component *)

Lemma ws_close_frame (i : nat) (w : World) :
  hooks (ws_close i w) = hooks w /\
  wsRef (ws_close i w) = wsRef w /\
  mediaRecorderRef (ws_close i w) = mediaRecorderRef w /\
  streamRef (ws_close i w) = streamRef w /\
  synthRef (ws_close i w) = synthRef w /\
  recorders (ws_close i w) = recorders w /\
  streams (ws_close i w) = streams w /\
  effects (ws_close i w) = effects w ++ [EWsClose i] /\
  (forall j, sent_on j (ws_close i w) = sent_on j w).
Proof.
  unfold ws_close. simpl.
  destruct (sockets w !! i) as [ws|] eqn:E;
    [destruct (readyState ws) eqn:Er|];
    simpl; repeat apply conj; try reflexivity;
    intros j; unfold sent_on; simpl;
    (destruct (decide (i = j)) as [<-|Hne];
       [rewrite list_lookup_insert_eq by (by eapply lookup_lt_Some);
        by rewrite E
       |by rewrite list_lookup_insert_ne by exact Hne]).
Qed.

Lemma ws_close_closing (i : nat) (w : World) (ws : WebSocket) :
  sockets (ws_close i w) !! i = Some ws ->
  readyState ws = CLOSING \/ readyState ws = CLOSED.
Proof.
  unfold ws_close. simpl.
  destruct (sockets w !! i) as [ws0|] eqn:E.
  - destruct (readyState ws0) eqn:Er; simpl;
      rewrite ?list_lookup_insert_eq by (by eapply lookup_lt_Some);
      rewrite ?E; intros [= <-]; simpl; auto.
  - simpl. by rewrite E.
Qed.

(** X12. Closing the component releases everything and cannot fail.  The
    cleanup that runs when [App] closes the voice modal stops the capture in
    the refs, silences playback and starts closing the socket in the ref,
    also one that is still connecting; unlike [endSession] it calls no
    [send], so it transmits nothing and never throws.  No hook changes but
    [isRecording]. *)
Theorem X12_unmount_releases_without_sending (w : World) :
  capture_stopped (unmount w) /\
  playing (unmount w) = [] /\
  channel_closing (unmount w) /\
  (forall j, sent_on j (unmount w) = sent_on j w) /\
  (exists added,
     effects (unmount w) = effects w ++ added /\
     Forall (fun e => is_release e \/ exists i, e = EWsClose i) added) /\
  hooks (unmount w) = hooks (setIsRecording false w).
Proof.
  unfold unmount. cbv zeta.
  pose proof (stopRecording_capture_stopped w) as Hc.
  destruct (stopRecording_frame w)
    as (_ & _ & _ & _ & _ & _ & Hws & Hso & _ & Hhk).
  destruct (stopRecording_effects w) as (rel1 & Ee1 & Fr1).
  remember (stopRecording w) as a eqn:Ea. clear Ea.
  set (b := match wsRef a with Some i => ws_close i a | None => a end).
  assert (Hb : hooks b = hooks a /\ wsRef b = wsRef a /\
               mediaRecorderRef b = mediaRecorderRef a /\
               streamRef b = streamRef a /\ synthRef b = synthRef a /\
               recorders b = recorders a /\ streams b = streams a /\
               (exists ch, effects b = effects a ++ ch /\
                  Forall (fun e => is_release e \/ exists i, e = EWsClose i)
                    ch) /\
               (forall j, sent_on j b = sent_on j a)).
  { unfold b. destruct (wsRef a) as [i|] eqn:Hr.
    - destruct (ws_close_frame i a)
        as (H1 & H2 & H3 & H4 & H5 & H6 & H7 & H8 & H9).
      rewrite Hr in H2. repeat apply conj; try assumption.
      exists [EWsClose i]. split; [exact H8|].
      constructor; [right; by eexists|constructor].
    - repeat apply conj; try reflexivity; try assumption.
      exists []. split; [by rewrite app_nil_r|constructor]. }
  destruct Hb as (B1 & B2 & B3 & B4 & B5 & B6 & B7 & (ch & B8 & Fch) & B9).
  destruct (cancel_speech_frame b) as (C1 & C2 & C3 & C4 & C5 & C6 & C7).
  destruct (cancel_speech_effects b) as (rel2 & Ee2 & Fr2).
  split; [|split; [|split; [|split; [|split]]]].
  - eapply capture_stopped_frame; [..|exact Hc]; congruence.
  - apply cancel_speech_silences.
  - unfold channel_closing. intros i ws. rewrite C2, C5, B2. intros Hr.
    unfold b. rewrite Hr. apply ws_close_closing.
  - intros j. unfold sent_on at 1. rewrite C5. fold (sent_on j b).
    rewrite B9. unfold sent_on. by rewrite Hso.
  - exists (rel1 ++ ch ++ rel2). split.
    + by rewrite Ee2, B8, Ee1, <- !app_assoc.
    + apply Forall_app. split; [eapply Forall_impl; [exact Fr1|]; auto|].
      apply Forall_app. split; [exact Fch|].
      eapply Forall_impl; [exact Fr2|]; auto.
  - by rewrite C1, B1.
Qed.

(** ** Inbound messages *)

Lemma handleWebSocketMessage_frame (r : Hooks) (msg : Msg) (w : World) :
  let w' := handleWebSocketMessage r msg w in
  wsRef w' = wsRef w /\ mediaRecorderRef w' = mediaRecorderRef w /\
  streamRef w' = streamRef w /\ sockets w' = sockets w /\
  recorders w' = recorders w /\ streams w' = streams w /\
  hooks w' =
    hooks (setView (view (hooks w'))
            (setError (error (hooks w'))
              (setTranscripts (fun _ => transcripts (hooks w')) w))) /\
  (view (hooks w') = view (hooks w) \/ view (hooks w') = summary) /\
  exists added, effects w' = effects w ++ added /\
                Forall is_log_or_speech added.
Proof.
  destruct w as [h ????????????]. destruct h.
  cbv zeta. unfold handleWebSocketMessage, speakText.
  destruct (msg_type msg) as [| | | |type|];
    repeat match goal with
    | |- context [if ?b then _ else _] => destruct b
    | |- context [match ?o with Some _ => _ | None => _ end] => destruct o
    end;
    simpl; repeat apply conj; try reflexivity; try (by left); try (by right);
    first [ exists []; split; [by rewrite app_nil_r|constructor]
          | eexists; split;
            [rewrite <- ?app_assoc; reflexivity|by repeat constructor] ].
Qed.

(** X13. An inbound message never acts on the channel or the capture.
    Whatever the message, [handleWebSocketMessage] leaves the refs, the
    sockets (so nothing is sent or closed), the recorders and the streams as
    they were; of the hooks only the view, the error and the transcript can
    change, and the view only to [summary]; the only calls it makes are
    console output and speech. *)
Theorem X13_inbound_message_never_sends_or_captures
    (r : Hooks) (msg : Msg) (w : World) :
  let w' := handleWebSocketMessage r msg w in
  wsRef w' = wsRef w /\ mediaRecorderRef w' = mediaRecorderRef w /\
  streamRef w' = streamRef w /\ sockets w' = sockets w /\
  recorders w' = recorders w /\ streams w' = streams w /\
  hooks w' =
    hooks (setView (view (hooks w'))
            (setError (error (hooks w'))
              (setTranscripts (fun _ => transcripts (hooks w')) w))) /\
  (view (hooks w') = view (hooks w) \/ view (hooks w') = summary) /\
  exists added, effects w' = effects w ++ added /\
                Forall is_log_or_speech added.
Proof. exact (handleWebSocketMessage_frame r msg w). Qed.

Lemma handleWebSocketMessage_transcripts (r : Hooks) (msg : Msg) (w : World) :
  exists added,
    transcripts (hooks (handleWebSocketMessage r msg w))
      = transcripts (hooks w) ++ added /\
    length added <= 1 /\ Forall (entry_from msg) added.
Proof.
  unfold handleWebSocketMessage.
  assert (Hnone : exists added : list TranscriptEntry,
            transcripts (hooks w) = transcripts (hooks w) ++ added /\
            length added <= 1 /\ Forall (entry_from msg) added).
  { exists []. rewrite app_nil_r.
    split; [reflexivity|split; [simpl; lia|constructor]]. }
  destruct (msg_type msg) as [| | | |type|]; try exact Hnone.
  destruct (String.eqb type "connected"); [exact Hnone|].
  destruct (String.eqb type "input_transcript").
  { simpl. destruct (truthy (msg_is_final msg)); [|exact Hnone].
    eexists. split; [reflexivity|]. split; [simpl; lia|].
    constructor; [|constructor]. split; [reflexivity|by left]. }
  destruct (String.eqb type "output_transcript" || String.eqb type "text").
  { destruct (truthy (js_or (msg_text msg) (msg_data msg))); [|exact Hnone].
    rewrite hooks_speakText. simpl.
    eexists. split; [reflexivity|]. split; [simpl; lia|].
    constructor; [|constructor]. split; [reflexivity|].
    simpl. unfold js_or. destruct (truthy (msg_text msg)); auto. }
  destruct (String.eqb type "turn_complete"); [exact Hnone|].
  destruct (String.eqb type "error"); [exact Hnone|].
  destruct (String.eqb type "session_ended"); exact Hnone.
Qed.

(** X14. Inbound messages only append to the transcript.  After any
    sequence of messages delivered to one handler closure the transcript is
    the earlier transcript followed by at most one new entry per message,
    in arrival order; no earlier entry is changed or removed, and every new
    entry is undimmed and carries the [text] or [data] of one of the
    messages. *)
Theorem X14_inbound_messages_only_append
    (r : Hooks) (msgs : list Msg) (w : World) :
  exists added,
    transcripts (hooks (deliver r msgs w)) = transcripts (hooks w) ++ added /\
    length added <= length msgs /\
    Forall (fun t => exists msg, In msg msgs /\ entry_from msg t) added.
Proof.
  revert w. induction msgs as [|msg msgs IH]; intros w.
  - exists []. rewrite app_nil_r.
    split; [reflexivity|split; [simpl; lia|constructor]].
  - destruct (handleWebSocketMessage_transcripts r msg w)
      as (a1 & E1 & L1 & F1).
    destruct (IH (handleWebSocketMessage r msg w)) as (a2 & E2 & L2 & F2).
    exists (a1 ++ a2). simpl deliver. unfold deliver in *. simpl fold_left.
    rewrite E2, E1, <- app_assoc. split; [reflexivity|]. split.
    + rewrite length_app. simpl. lia.
    + apply Forall_app. split.
      * eapply Forall_impl; [exact F1|]. intros t Ht. exists msg.
        split; [by left|exact Ht].
      * eapply Forall_impl; [exact F2|]. intros t (m & Hin & Ht).
        exists m. split; [by right|exact Ht].
Qed.

(** ** What every run preserves *)

Lemma same_shape_refl (w : World) : same_shape w w.
Proof.
  unfold same_shape. repeat apply conj; try reflexivity.
  exists []. split; [by rewrite app_nil_r|constructor].
Qed.

Lemma closures_insert (l : list WebSocket) (i : nat) (ws ws' : WebSocket) :
  l !! i = Some ws -> captured ws' = captured ws ->
  captured <$> <[i := ws']> l = captured <$> l.
Proof.
  intros Hl Hc. rewrite list_fmap_insert. apply list_insert_id.
  by rewrite list_lookup_fmap, Hl, Hc.
Qed.

Lemma same_shape_trans (a b c : World) :
  same_shape a b -> same_shape b c -> same_shape a c.
Proof.
  unfold same_shape.
  intros (A1 & A2 & A4 & A5 & A6 & A7 & (xa & A8 & A9) & A10)
         (B1 & B2 & B4 & B5 & B6 & B7 & (xb & B8 & B9) & B10).
  repeat apply conj; try congruence.
  exists (xa ++ xb). split; [by rewrite B8, A8, app_assoc|].
  by apply Forall_app.
Qed.

(** Closes [same_shape] goals for handlers that only set hooks other than
    the transcript, log calls or update an object in place. *)
Ltac shape :=
  unfold same_shape;
  repeat match goal with
  | |- context [match ?x with _ => _ end] => destruct x eqn:?
  end;
  simpl; rewrite ?length_insert;
  repeat apply conj; try reflexivity;
  first [ exists []; split; [by rewrite app_nil_r|constructor]
        | eapply closures_insert; [eassumption|reflexivity] ].

Lemma shape_ws_send (i : nat) (m : OutMsg) (w : World) :
  same_shape w (world_of (ws_send i m w)).
Proof. unfold ws_send. simpl. shape. Qed.

Lemma shape_ws_close (i : nat) (w : World) : same_shape w (ws_close i w).
Proof. unfold ws_close. simpl. shape. Qed.

Lemma shape_stopRecording (w : World) : same_shape w (stopRecording w).
Proof.
  destruct (stopRecording_frame w)
    as (_ & _ & H1 & H2 & H3 & H4 & H5 & H6 & _ & H7).
  unfold same_shape. rewrite H1, H2, H3, H4, H5, H6, H7.
  repeat apply conj; try reflexivity.
  exists []. split; [by rewrite app_nil_r|constructor].
Qed.

Lemma shape_cancel_speech (w : World) : same_shape w (cancel_speech w).
Proof. unfold cancel_speech, synth_cancel. shape. Qed.

Lemma shape_end_channel (w : World) : same_shape w (world_of (end_channel w)).
Proof.
  unfold end_channel. destruct (wsRef w) as [i|]; [|apply same_shape_refl].
  pose proof (shape_ws_send i OutEnd w) as H.
  destruct (ws_send i OutEnd w) as [w1|e w1]; simpl in *; [|exact H].
  eapply same_shape_trans; [exact H|apply shape_ws_close].
Qed.

Lemma shape_endSession (w : World) : same_shape w (world_of (endSession w)).
Proof.
  unfold endSession. cbv zeta.
  eapply same_shape_trans; [apply shape_stopRecording|].
  eapply same_shape_trans; [apply shape_cancel_speech|].
  pose proof (shape_end_channel (cancel_speech (stopRecording w))) as H.
  destruct (end_channel (cancel_speech (stopRecording w))) as [w1|e w1];
    simpl in *; [|exact H].
  eapply same_shape_trans; [exact H|]. unfold setView, with_hooks. shape.
Qed.

Lemma shape_handleWebSocketMessage (r : Hooks) (msg : Msg) (w : World) :
  same_shape w (handleWebSocketMessage r msg w).
Proof.
  destruct (handleWebSocketMessage_frame r msg w)
    as (H1 & H2 & H3 & H4 & H5 & H6 & _).
  destruct (handleWebSocketMessage_transcripts r msg w) as (a & Ea & _ & Fa).
  unfold same_shape. rewrite H1, H2, H3, H4, H5, H6.
  repeat apply conj; try reflexivity.
  - exists a. split; [exact Ea|].
    eapply Forall_impl; [exact Fa|]. by intros t [Ht _].
Qed.

Lemma shape_sendTextMessage (r : Hooks) (w : World) :
  same_shape w (world_of (sendTextMessage r w)).
Proof.
  unfold sendTextMessage. destruct (wsRef w) as [i|]; [|apply same_shape_refl].
  destruct (trim_is_empty (textInput r)); [apply same_shape_refl|].
  pose proof (shape_ws_send i (OutText (textInput r)) w) as H.
  destruct (ws_send i (OutText (textInput r)) w) as [w1|e w1];
    simpl in *; [|exact H].
  eapply same_shape_trans; [exact H|].
  unfold same_shape. simpl. repeat apply conj; try reflexivity.
  eexists. split; [reflexivity|]. by repeat constructor.
Qed.

Lemma shape_onloadend (result : string) (w : World) :
  same_shape w (world_of (onloadend result w)).
Proof.
  unfold onloadend. destruct (channel_open w); [|apply same_shape_refl].
  destruct (wsRef w) as [i|]; [|apply same_shape_refl].
  apply shape_ws_send.
Qed.

Lemma lookup_nonempty {A} (l : list A) (i : nat) (x : A) :
  l !! i = Some x -> l <> [].
Proof. by destruct l. Qed.

(** The handler on the right leaves the view as it was. *)
Ltac view_kept :=
  let Hv := fresh "Hv" in
  let E := fresh "E" in
  intros Hv; left; intros E; apply Hv; revert E;
  repeat match goal with
  | |- context [match ?x with _ => _ end] => destruct x eqn:?
  end;
  simpl; auto.

(** Every step keeps the shape of the world, but for three: a created
    session whose socket is constructed, a granted microphone and a
    restart. *)
Lemma Step_cases (w w' : World) :
  Step w w' ->
  (same_shape w w' /\
   (view (hooks w') <> setup ->
    view (hooks w) <> setup \/ sockets w <> [])) \/
  (exists r session_id,
     w' = startSession_resume r (Created session_id Constructed) w) \/
  (exists ntracks webm, w' = startRecording_granted ntracks webm w) \/
  (view (hooks w) = summary /\ w' = restart_onClick w).
Proof.
  intros HS. destruct HS.
  - left. split; [shape|view_kept].
  - left. split; [shape|view_kept].
  - left. split; [shape|view_kept].
  - left. split; [shape|view_kept].
  - left. split; [shape|view_kept].
  - left. unfold startMission_onClick, startSession.
    split; [shape|view_kept].
  - destruct resp as [message| |session_id [|message]];
      [left|left|right; left; by eexists _, _|left];
      (split; [shape|view_kept]).
  - left. split; [|right; by eapply lookup_nonempty].
    unfold open_event, ws_onopen, set_readyState. simpl. shape.
  - left. split; [|right; by eapply lookup_nonempty].
    unfold ws_onmessage. destruct (sockets w !! i); [|apply same_shape_refl].
    apply shape_handleWebSocketMessage.
  - left. split; [shape|view_kept].
  - left. split; [|right; by eapply lookup_nonempty].
    unfold close_event, ws_onclose, set_readyState. simpl. shape.
  - left. split; [shape|view_kept].
  - left. split; [|left; congruence].
    unfold mic_onClick. destruct (isRecording (hooks w));
      [apply shape_stopRecording|shape].
  - right. right. left. by eexists _, _.
  - left. split; [shape|view_kept].
  - left. unfold ondataavailable. split; [shape|view_kept].
  - left. unfold onstop. split; [shape|view_kept].
  - left. split; [apply shape_onloadend|].
    unfold onloadend, ws_send. view_kept.
  - left. unfold utterance_ended. split; [shape|view_kept].
  - left. split; [shape|left; congruence].
  - left. split; [|left; congruence].
    unfold textInput_onKeyPress. destruct (String.eqb key "Enter");
      [apply shape_sendTextMessage|apply same_shape_refl].
  - left. split; [|left; congruence].
    unfold send_onClick. destruct (trim_is_empty (textInput (hooks w)));
      [apply same_shape_refl|apply shape_sendTextMessage].
  - left. split; [apply shape_endSession|left; congruence].
  - right. right. right. by split.
Qed.

Lemma same_shape_inv (w w' : World) :
  same_shape w w' ->
  (view (hooks w') <> setup -> view (hooks w) <> setup \/ sockets w <> []) ->
  Inv w -> Inv w'.
Proof.
  intros (S1 & S2 & S4 & S5 & S6 & S7 & (added & S8 & S9) & _) Hv
         ((R1 & R2 & R3) & K & T).
  split; [|split].
  - unfold refs_in_range. rewrite S1, S2, S4, S5, S6, S7. done.
  - unfold channel_known in *. rewrite S2. intros [H|H]; apply K.
    + by apply Hv.
    + right. intros E. apply H. apply length_zero_iff_nil.
      rewrite S1, E. reflexivity.
  - rewrite S8. by apply Forall_app.
Qed.

Lemma Inv_mount (synth : option SpeechSynthesis) (protocol host : string) :
  Inv (mount (initial_world synth protocol host)).
Proof.
  split; [|split].
  - repeat split; intros i [=].
  - intros [H|H]; by destruct H.
  - constructor.
Qed.

Lemma Inv_created (r : Hooks) (session_id : jsval) (w : World) :
  Inv w -> Inv (startSession_resume r (Created session_id Constructed) w).
Proof.
  intros ((R1 & R2 & R3) & K & T). split; [|split].
  - unfold refs_in_range. simpl. rewrite length_app. simpl.
    repeat split; [intros i [= <-]; lia|exact R2|exact R3].
  - intros _. simpl. discriminate.
  - exact T.
Qed.

Lemma Inv_granted (ntracks : nat) (webm : bool) (w : World) :
  Inv w -> Inv (startRecording_granted ntracks webm w).
Proof.
  intros ((R1 & R2 & R3) & K & T). unfold startRecording_granted.
  destruct webm.
  - unfold recorder_start. simpl. rewrite lookup_snoc. simpl.
    split; [|split]; [|exact K|exact T].
    unfold refs_in_range. simpl.
    rewrite length_insert, !length_app. simpl.
    repeat split; [exact R1|intros i [= <-]; lia|intros i [= <-]; lia].
  - split; [|split]; [|exact K|exact T].
    unfold refs_in_range. simpl. rewrite length_app. simpl.
    repeat split; [exact R1|exact R2|intros i [= <-]; lia].
Qed.

Lemma Inv_restart (w : World) : Inv w -> Inv (restart_onClick w).
Proof.
  intros (R & K & T). split; [exact R|]. split; [|constructor].
  unfold channel_known in *. simpl. intros [H|H]; [done|].
  apply K. by right.
Qed.

Lemma Step_Inv (w w' : World) : Step w w' -> Inv w -> Inv w'.
Proof.
  intros HS HI.
  destruct (Step_cases w w' HS)
    as [[Hs Hv]|[(r & id & ->)|[(n & b & ->)|[_ ->]]]].
  - by apply (same_shape_inv w).
  - by apply Inv_created.
  - by apply Inv_granted.
  - by apply Inv_restart.
Qed.

Lemma Reachable_Inv (w : World) : Reachable w -> Inv w.
Proof.
  induction 1 as [synth protocol host|w w' _ IH HS].
  - apply Inv_mount.
  - by apply (Step_Inv w).
Qed.

(** The sample session is a run of the component. *)
Lemma Sample_reachable :
  Reachable Sample.ready /\ Reachable Sample.connected /\
  Reachable Sample.capturing /\ Reachable Sample.speaking.
Proof.
  assert (H0 : Reachable Sample.ready).
  { apply (reach_step
             (language_onClick Sample.spanish
                (missions_loaded [Sample.m1]
                   (mount (initial_world (Some Sample.synth0)
                             "https:" "hub.test"))))).
    - apply (reach_step
               (missions_loaded [Sample.m1]
                  (mount (initial_world (Some Sample.synth0)
                            "https:" "hub.test")))).
      + apply (reach_step (mount (initial_world (Some Sample.synth0)
                                    "https:" "hub.test")));
          [apply reach_mount|apply step_missions_loaded].
      + apply step_language; [reflexivity|].
        unfold LANGUAGES. repeat (first [left; reflexivity|right]).
    - apply step_mission; [reflexivity|]. left. reflexivity. }
  assert (H1 : Reachable Sample.connected).
  { apply (reach_step
             (startSession_resume (hooks Sample.ready)
                (Created (JStr "s1") Constructed)
                (startMission_onClick (hooks Sample.ready) Sample.ready))).
    - apply (reach_step
               (startMission_onClick (hooks Sample.ready) Sample.ready)).
      + apply (reach_step Sample.ready); [exact H0|].
        apply step_start. reflexivity.
      + apply step_response.
    - eapply step_open; vm_compute; reflexivity. }
  assert (H2 : Reachable Sample.capturing).
  { apply (reach_step (mic_onClick (hooks Sample.connected)
                         Sample.connected)).
    - apply (reach_step Sample.connected); [exact H1|].
      apply step_mic. reflexivity.
    - apply step_granted. }
  repeat apply conj; try assumption.
  apply (reach_step Sample.capturing); [exact H2|].
  eapply step_message; [vm_compute; reflexivity|by left].
Qed.

(** X15. No ref ever dangles.  In every world a run of the component can
    reach, each of [wsRef], [mediaRecorderRef] and [streamRef] is empty or
    points to an object that exists. *)
Theorem X15_refs_never_dangle (w : World) :
  Reachable w ->
  (forall i, wsRef w = Some i -> is_Some (sockets w !! i)) /\
  (forall i, mediaRecorderRef w = Some i -> is_Some (recorders w !! i)) /\
  (forall i, streamRef w = Some i -> is_Some (streams w !! i)).
Proof.
  intros H. destruct (Reachable_Inv w H) as ((R1 & R2 & R3) & _).
  repeat split; intros i Hi; apply lookup_lt_is_Some; auto.
Qed.

Lemma X15_witness :
  is_Some (sockets Sample.speaking !! 0) /\
  is_Some (recorders Sample.speaking !! 0).
Proof.
  destruct (X15_refs_never_dangle Sample.speaking
              (proj2 (proj2 (proj2 Sample_reachable)))) as (H1 & H2 & _).
  split; [apply H1|apply H2]; reflexivity.
Defined.

(** X16. Past the setup view there is always a channel.  In every
    reachable world where the active or the summary view is on screen,
    [wsRef] points to an existing socket; so in the active view a line that
    is not blank is always handed to [ws.send], never dropped by the
    missing-socket return of [sendTextMessage]. *)
Theorem X16_channel_exists_past_setup (w : World) :
  Reachable w -> view (hooks w) <> setup ->
  exists i,
    wsRef w = Some i /\ is_Some (sockets w !! i) /\
    (trim_is_empty (textInput (hooks w)) = false ->
     effects (world_of (sendTextMessage (hooks w) w)) =
       effects w ++ [EWsSend i (OutText (textInput (hooks w)))]).
Proof.
  intros H Hv. destruct (Reachable_Inv w H) as ((R1 & _ & _) & K & _).
  pose proof (K (or_introl Hv)) as Hr.
  destruct (wsRef w) as [i|] eqn:E; [|done]. exists i.
  split; [reflexivity|]. split; [apply lookup_lt_is_Some; auto|].
  intros Ht. unfold sendTextMessage, ws_send. rewrite E, Ht. simpl.
  destruct (sockets w !! i) as [ws|]; [|reflexivity].
  by destruct (readyState ws).
Qed.

Lemma X16_witness :
  exists i, wsRef More.typed_hola = Some i /\
            is_Some (sockets More.typed_hola !! i) /\
            effects (world_of (sendTextMessage (hooks More.typed_hola)
                                 More.typed_hola)) =
              effects More.typed_hola ++
              [EWsSend i (OutText (textInput (hooks More.typed_hola)))].
Proof.
  destruct (X16_channel_exists_past_setup More.typed_hola)
    as (i & Hr & Hl & Hs).
  - eapply reach_step; [exact (proj1 (proj2 Sample_reachable))|].
    by apply step_text.
  - discriminate.
  - exists i. split; [exact Hr|]. split; [exact Hl|]. apply Hs.
    vm_compute. reflexivity.
Defined.

(** X17. No transcript bubble is ever dimmed.  Every entry any handler
    appends has [isTemp] false, so in every reachable world
    [LiveTranscript] draws all bubbles at full opacity: interim speech
    results are never shown. *)
Theorem X17_no_bubble_is_dimmed (w : World) :
  Reachable w ->
  Forall (fun t => LiveTranscript_dimmed t = false) (transcripts (hooks w)).
Proof. intros H. by destruct (Reachable_Inv w H) as (_ & _ & T). Qed.

Lemma X17_witness :
  Forall (fun t => LiveTranscript_dimmed t = false)
    (transcripts (hooks Sample.speaking)).
Proof.
  apply (X17_no_bubble_is_dimmed Sample.speaking).
  exact (proj2 (proj2 (proj2 Sample_reachable))).
Defined.

(** X18. The transcript is append-only until a restart.  Every step of
    the component other than Try Another Mission leaves the transcript as it
    was or extends it at the end; only that button, in the summary view,
    empties it. *)
Theorem X18_transcript_append_only (w w' : World) :
  Step w w' ->
  (exists added,
     transcripts (hooks w') = transcripts (hooks w) ++ added) \/
  (view (hooks w) = summary /\ w' = restart_onClick w /\
   transcripts (hooks w') = []).
Proof.
  intros HS.
  destruct (Step_cases w w' HS)
    as [[Hs _]|[(r & id & ->)|[(n & b & ->)|[Hv ->]]]].
  - left. destruct Hs as (_ & _ & _ & _ & _ & _ & (added & E & _) & _).
    by exists added.
  - left. exists []. by rewrite app_nil_r.
  - left. exists []. rewrite app_nil_r. unfold startRecording_granted.
    destruct b; [|reflexivity]. unfold recorder_start. simpl.
    by rewrite lookup_snoc.
  - right. by repeat split.
Qed.

Lemma X18_witness :
  (exists added,
     transcripts (hooks Sample.speaking)
       = transcripts (hooks Sample.capturing) ++ added) \/
  (view (hooks Sample.capturing) = summary /\
   Sample.speaking = restart_onClick Sample.capturing /\
   transcripts (hooks Sample.speaking) = []).
Proof.
  apply (X18_transcript_append_only Sample.capturing Sample.speaking).
  unfold Sample.speaking. eapply step_message; [reflexivity|by left].
Defined.

(** X19. Nothing is ever discarded or detached.  No step removes a
    socket, recorder or stream, and a ref keeps the object it holds through
    every step but the one that creates the replacement: [wsRef] moves only
    when the socket of a created session is constructed, and then to that
    socket; [mediaRecorderRef] and [streamRef] move only when the microphone
    is granted, and then to the new recorder and the new stream.  So after
    [endSession] and after a restart the old socket is still the one in
    [wsRef], until a new session replaces it. *)
Theorem X19_refs_and_objects_are_never_cleared (w w' : World) :
  Step w w' ->
  length (sockets w) <= length (sockets w') /\
  length (recorders w) <= length (recorders w') /\
  length (streams w) <= length (streams w') /\
  (wsRef w' = wsRef w \/
   (exists r session_id,
      w' = startSession_resume r (Created session_id Constructed) w) /\
   wsRef w' = Some (length (sockets w))) /\
  (mediaRecorderRef w' = mediaRecorderRef w \/
   (exists ntracks, w' = startRecording_granted ntracks true w) /\
   mediaRecorderRef w' = Some (length (recorders w))) /\
  (streamRef w' = streamRef w \/
   (exists ntracks webm, w' = startRecording_granted ntracks webm w) /\
   streamRef w' = Some (length (streams w))) /\
  wsRef (world_of (endSession w)) = wsRef w /\
  wsRef (restart_onClick w) = wsRef w.
Proof.
  intros HS.
  assert (He : wsRef (world_of (endSession w)) = wsRef w).
  { by destruct (shape_endSession w) as (_ & E & _). }
  destruct (Step_cases w w' HS)
    as [[Hs _]|[(r & id & ->)|[(n & b & ->)|[Hv ->]]]].
  - destruct Hs as (S1 & S2 & S4 & S5 & S6 & S7 & _).
    rewrite S1, S4, S6. repeat apply conj; auto.
  - simpl. rewrite length_app. simpl.
    repeat apply conj; auto; try lia.
    right. split; [by eexists _, _|reflexivity].
  - unfold startRecording_granted. destruct b.
    + unfold recorder_start. simpl. rewrite lookup_snoc. simpl.
      rewrite length_insert, !length_app. simpl.
      repeat apply conj; auto; try lia.
      * right. split; [|reflexivity]. by exists n.
      * right. split; [|reflexivity]. by exists n, true.
    + simpl. rewrite length_app. simpl.
      repeat apply conj; auto; try lia.
      right. split; [|reflexivity]. by exists n, false.
  - simpl. repeat apply conj; auto.
Qed.

Lemma X19_witness :
  wsRef (restart_onClick Scenario.ended_locally) = wsRef Scenario.ended_locally.
Proof.
  destruct (X19_refs_and_objects_are_never_cleared Scenario.ended_locally
              (restart_onClick Scenario.ended_locally))
    as (_ & _ & _ & _ & _ & _ & _ & Hr).
  - apply step_restart. vm_compute. reflexivity.
  - exact Hr.
Defined.

(** ** The closure a socket holds *)

(** X20. A socket's handler closure is fixed when the socket is created.
    No step of the component changes the render a socket's [onmessage]
    closure belongs to: whatever is selected, muted or typed later, messages
    on that socket are handled with the hook values of the render that
    started the session. *)
Theorem X20_socket_closure_is_fixed
    (w w' : World) (i : nat) (ws : WebSocket) :
  Step w w' -> sockets w !! i = Some ws ->
  exists ws',
    sockets w' !! i = Some ws' /\ captured ws' = captured ws /\
    forall msg,
      ws_onmessage i msg w' = handleWebSocketMessage (captured ws) msg w'.
Proof.
  intros HS Hl.
  assert (Hc : (captured <$> sockets w') !! i = Some (captured ws)).
  { destruct (Step_cases w w' HS)
      as [[Hs _]|[(r & id & ->)|[(n & b & ->)|[Hv ->]]]].
    - destruct Hs as (_ & _ & _ & _ & _ & _ & _ & ->).
      by rewrite list_lookup_fmap, Hl.
    - simpl. rewrite fmap_app, lookup_app_l.
      + by rewrite list_lookup_fmap, Hl.
      + rewrite length_fmap. by eapply lookup_lt_Some.
    - assert (E : sockets (startRecording_granted n b w) = sockets w).
      { unfold startRecording_granted. destruct b; [|reflexivity].
        unfold recorder_start. simpl. by rewrite lookup_snoc. }
      by rewrite E, list_lookup_fmap, Hl.
    - simpl. by rewrite list_lookup_fmap, Hl. }
  rewrite list_lookup_fmap in Hc.
  destruct (sockets w' !! i) as [ws'|] eqn:E; [|discriminate].
  injection Hc as Hc. exists ws'. split; [reflexivity|].
  split; [exact Hc|]. intros msg. unfold ws_onmessage. by rewrite E, Hc.
Qed.

Lemma X20_witness :
  exists ws',
    sockets (mute_onClick (hooks Sample.capturing) Sample.capturing) !! 0
      = Some ws' /\
    captured ws' = hooks Sample.ready.
Proof.
  destruct (X20_socket_closure_is_fixed Sample.capturing
              (mute_onClick (hooks Sample.capturing) Sample.capturing) 0
              {| readyState := OPEN; transmitted := [];
                 captured := hooks Sample.ready |})
    as (ws' & Hl & Hc & _).
  - apply step_mute. reflexivity.
  - vm_compute. reflexivity.
  - exists ws'. split; [exact Hl|exact Hc].
Defined.

(** X21. Whether an assistant line is spoken is decided by the [isMuted]
    of the socket's closure, not by the current one.  If the render that
    started the session was not muted and the browser has a synthesiser,
    every assistant line arriving on the socket is handed to [synth.speak],
    also after mute has been pressed; if that render was muted, none is,
    also after unmuting. *)
Theorem X21_speech_follows_the_closure_not_the_mute_hook
    (w : World) (i : nat) (ws : WebSocket) (msg : Msg) (t : string) :
  sockets w !! i = Some ws ->
  is_assistant_message msg -> carries msg t ->
  spoken (effects (ws_onmessage i msg w)) =
    spoken (effects w) ++
    (if isMuted (captured ws) then []
     else match synthRef w with Some _ => [JStr t] | None => [] end).
Proof.
  intros Hl Hm Hc. unfold ws_onmessage. rewrite Hl.
  rewrite (assistant_message_dispatch _ _ _ Hm). cbv zeta.
  rewrite (js_or_carried _ _ Hc). destruct Hc as [Ht _].
  rewrite (truthy_nonempty _ Ht). by rewrite spoken_speakText.
Qed.

Lemma X21_witness :
  isMuted (hooks (mute_onClick (hooks Sample.capturing) Sample.capturing))
    = true /\
  spoken (effects (ws_onmessage 0 (Sample.output_transcript "Hola")
            (mute_onClick (hooks Sample.capturing) Sample.capturing))) =
    spoken (effects (mute_onClick (hooks Sample.capturing)
                       Sample.capturing)) ++ [JStr "Hola"].
Proof.
  split; [reflexivity|].
  refine (X21_speech_follows_the_closure_not_the_mute_hook
            (mute_onClick (hooks Sample.capturing) Sample.capturing) 0
            {| readyState := OPEN; transmitted := [];
               captured := hooks Sample.ready |}
            (Sample.output_transcript "Hola") "Hola" _ _ _).
  - vm_compute. reflexivity.
  - left. reflexivity.
  - split; [discriminate|]. left. reflexivity.
Defined.

(** ** Capture after the channel closed, and failed starts *)

(** X22. A closed channel flips the mic control without stopping the
    recorder.  When a socket closes, [onclose] resets [isConnected] and
    [isRecording] and nothing else: the view, the recorders and the streams
    are as before, so a recorder that was recording still is.  The mic
    control, reading the reset hook, then runs [startRecording] and asks for
    the microphone again. *)
Theorem X22_socket_close_flips_mic_control (i : nat) (w : World) :
  let w' := close_event i w in
  isRecording (hooks w') = false /\ isConnected (hooks w') = false /\
  view (hooks w') = view (hooks w) /\
  recorders w' = recorders w /\ streams w' = streams w /\
  mediaRecorderRef w' = mediaRecorderRef w /\ effects w' = effects w /\
  mic_onClick (hooks w') w' = startRecording w' /\
  effects (mic_onClick (hooks w') w') = effects w ++ [EGetUserMedia].
Proof.
  cbv zeta. unfold close_event, ws_onclose, set_readyState, mic_onClick.
  destruct (sockets w !! i); simpl; repeat apply conj; reflexivity.
Qed.


(** ** Picking a mission and starting *)

(** X24. The picked mission is the one requested.  Pressing a mission
    card selects that mission; on the next render its card (and every card
    with the same id) is highlighted and no other, Start Mission is enabled,
    and a press issues one request carrying that mission's id together with
    the language name and mode selected before. *)
Theorem X24_picked_mission_is_requested (mission : Mission) (w : World) :
  let w' := mission_onSelect mission w in
  (forall card, MissionCard_highlighted (selectedMission (hooks w')) card
                = String.eqb (mission_id mission) (mission_id card)) /\
  MissionCard_highlighted (selectedMission (hooks w')) mission = true /\
  exists body,
    effects (startMission_onClick (hooks w') w') =
      effects w ++ [EFetch "/api/voice/session" body] /\
    req_mission_id body = JStr (mission_id mission) /\
    req_language body = lang_name (selectedLanguage (hooks w)) /\
    req_mode body = mode (hooks w) /\
    req_from_language body = "English".
Proof.
  cbv zeta. split; [reflexivity|]. split; [apply String.eqb_refl|].
  eexists. repeat apply conj; reflexivity.
Qed.

(** ** The caller *)

(** X25. Every feature button of [App] opens its own modal, and closing
    shows none.  Each id in [FEATURES] has a case in [renderFeatureModal],
    distinct features get distinct components, [voice] gets the voice chat;
    an id outside the table, and the [null] set by [onClose], render
    nothing. *)
Theorem X25_feature_buttons_open_their_modal :
  (forall f, In f FEATURES -> App_modal (feature_onClick f) <> None) /\
  (forall f g, In f FEATURES -> In g FEATURES ->
     App_modal (feature_onClick f) = App_modal (feature_onClick g) ->
     f = g) /\
  (forall f, In f FEATURES ->
     (App_modal (feature_onClick f) = Some VoiceChatModal <->
      feature_id f = "voice")) /\
  (forall id, ~ In id (map feature_id FEATURES) ->
     App_modal (Some id) = None) /\
  App_modal onClose = None.
Proof.
  split; [|split; [|split; [|split]]].
  - intros f Hf. unfold FEATURES in Hf. simpl in Hf.
    repeat (destruct Hf as [<-|Hf]; [discriminate|]). destruct Hf.
  - intros f g Hf Hg. unfold FEATURES in Hf, Hg. simpl in Hf, Hg.
    repeat (destruct Hf as [<-|Hf];
      [repeat (destruct Hg as [<-|Hg];
         [first [reflexivity|discriminate]|]); destruct Hg|]).
    destruct Hf.
  - intros f Hf. unfold FEATURES in Hf. simpl in Hf.
    repeat (destruct Hf as [<-|Hf]; [split; (reflexivity || discriminate)|]).
    destruct Hf.
  - intros id Hn. unfold App_modal.
    destruct (String.eqb id ""); [reflexivity|]. unfold renderFeatureModal.
    assert (Hne : forall s, In s (map feature_id FEATURES) ->
                            String.eqb id s = false).
    { intros s Hs. apply String.eqb_neq. intros ->. by apply Hn. }
    rewrite !Hne by (simpl; tauto). reflexivity.
  - reflexivity.
Qed.

Lemma X25_witness :
  App_modal (feature_onClick
               {| feature_id := "voice"; feature_name := "Languages";
                  feature_color := "from-purple-600 to-pink-600";
                  feature_description := "Learn languages with voice" |})
    <> None.
Proof.
  apply (proj1 X25_feature_buttons_open_their_modal).
  left. reflexivity.
Defined.

(** ** Ending twice *)

(** X26. [endSession] is idempotent once the socket has left
    [CONNECTING].  If the socket in the ref is open, closing or closed, or
    there is none, [endSession] returns with the capture stopped, playback
    silent, the socket closing or closed and the view [summary]; a second
    call returns too and leaves the same observable state, in particular
    the same transmitted messages. *)
Theorem X26_endSession_idempotent_past_connecting (w : World) :
  (forall i ws, wsRef w = Some i -> sockets w !! i = Some ws ->
                readyState ws <> CONNECTING) ->
  exists w1 w2,
    endSession w = Returned w1 /\ session_over w1 /\
    endSession w1 = Returned w2 /\ observe w2 = observe w1 /\
    (forall j, sent_on j w2 = sent_on j w1).
Proof.
  intros H. destruct (endSession_returns w H) as (w1 & E1 & H1).
  destruct (endSession_settled w1 H1) as (w2 & E2 & Ho).
  exists w1, w2.
  split; [exact E1|]. split; [exact H1|]. split; [exact E2|].
  split; [exact Ho|].
  intros j. pose proof (f_equal sockets Ho) as Hs. simpl in Hs.
  unfold sent_on. by rewrite Hs.
Qed.

Lemma X26_witness :
  exists w1 w2,
    endSession Sample.speaking = Returned w1 /\
    endSession w1 = Returned w2 /\ observe w2 = observe w1.
Proof.
  destruct (X26_endSession_idempotent_past_connecting Sample.speaking)
    as (w1 & w2 & E1 & _ & E2 & Ho & _).
  - intros [|i] ws Hr Hl; [|discriminate Hr].
    vm_compute in Hl. injection Hl as <-. discriminate.
  - exists w1, w2. split; [exact E1|]. split; [exact E2|exact Ho].
Defined.

(** ** A capture the refs have lost *)

(** The socket closes under a running recorder, and the mic control is
    pressed and granted again: both worlds are runs of the component. *)
Lemma capture_after_close_reachable :
  Reachable More.closed_while_recording /\
  Reachable Scenario.capture_after_close.
Proof.
  assert (H : Reachable More.closed_while_recording).
  { apply (reach_step Sample.capturing);
      [exact (proj1 (proj2 (proj2 Sample_reachable)))|].
    eapply step_close; [vm_compute; reflexivity|discriminate]. }
  split; [exact H|].
  apply (reach_step More.pressed_again); [|apply step_granted].
  apply (reach_step More.closed_while_recording); [exact H|].
  apply step_mic. vm_compute. reflexivity.
Qed.

(** C7 (the code at the failing input). The server closes the socket while
    recorder 0 records: [ws.onclose] resets the [isRecording] hook and
    leaves the recorder running on its live stream.  The mic control, which
    shows "start" again, is pressed: [startRecording] runs while a capture
    is active.  It asks for the microphone a second time and, once granted,
    creates stream 1 and recorder 1, moves both refs to them and starts
    recording again; recorder 0 keeps recording next to it. *)
Theorem C7_mic_control_starts_second_capture :
  Reachable More.closed_while_recording /\
  view (hooks More.closed_while_recording) = active /\
  rec_state <$> recorders More.closed_while_recording = [recording] /\
  streams More.closed_while_recording = [[live]] /\
  mediaRecorderRef More.closed_while_recording = Some 0 /\
  streamRef More.closed_while_recording = Some 0 /\
  isRecording (hooks More.closed_while_recording) = false /\
  More.pressed_again = startRecording More.closed_while_recording /\
  Scenario.capture_after_close
    = startRecording_granted 1 true More.pressed_again /\
  Reachable Scenario.capture_after_close /\
  effects Scenario.capture_after_close =
    effects More.closed_while_recording ++
    [EGetUserMedia; ENewAudioContext; ENewMediaRecorder 1 1;
     ERecorderStart 1] /\
  mediaRecorderRef Scenario.capture_after_close = Some 1 /\
  streamRef Scenario.capture_after_close = Some 1 /\
  rec_state <$> recorders Scenario.capture_after_close
    = [recording; recording] /\
  streams Scenario.capture_after_close = [[live]; [live]].
Proof.
  split; [exact (proj1 capture_after_close_reachable)|].
  do 8 (split; [vm_compute; reflexivity|]).
  split; [exact (proj2 capture_after_close_reachable)|].
  repeat apply conj; vm_compute; reflexivity.
Qed.

(** C3 (the code at the failing input). The socket was closed under
    recorder 0 and the mic control started recorder 1 next to it, so that
    both record and the refs point to recorder 1 and stream 1.  End is
    pressed.  [endSession] makes its release calls before its channel calls
    and returns with the summary view on screen, but it stops only the
    capture the refs point to: recorder 0 is still recording and the track
    of stream 0 is still live, so the microphone is not released. *)
Theorem C3_endSession_leaves_first_capture_running :
  Reachable Scenario.capture_after_close /\
  view (hooks Scenario.capture_after_close) = active /\
  exists w',
    end_onClick Scenario.capture_after_close = Returned w' /\
    Reachable w' /\
    view (hooks w') = summary /\
    effects w' =
      effects Scenario.capture_after_close ++
      [ERecorderStop 1; ETrackStop 1 0; ESynthCancel;
       EWsSend 0 OutEnd; EWsClose 0] /\
    rec_state <$> recorders w' = [recording; inactive] /\
    streams w' = [[live]; [ended]] /\
    ~ microphone_free w'.
Proof.
  split; [exact (proj2 capture_after_close_reachable)|].
  split; [vm_compute; reflexivity|].
  exists (world_of (end_onClick Scenario.capture_after_close)).
  split; [vm_compute; reflexivity|].
  split.
  { apply (reach_step Scenario.capture_after_close);
      [exact (proj2 capture_after_close_reachable)|].
    apply step_end. vm_compute. reflexivity. }
  do 4 (split; [vm_compute; reflexivity|]).
  intros [Hf _].
  specialize (Hf 0 {| rec_state := recording; rec_stream := 0; chunks := [] |}).
  vm_compute in Hf. by specialize (Hf eq_refl).
Qed.

(** ** The session requests of a run *)

Lemma session_requests_app (xs ys : list Effect) :
  session_requests (xs ++ ys) = session_requests xs ++ session_requests ys.
Proof.
  induction xs as [|e xs IH]; [reflexivity|].
  destruct e; simpl; by rewrite ?IH.
Qed.

Lemma session_requests_none (P : Effect -> Prop) (added : list Effect) :
  (forall url body, ~ P (EFetch url body)) -> Forall P added ->
  session_requests added = [].
Proof.
  intros HP. induction 1 as [|e added He _ IH]; [reflexivity|].
  destruct e; simpl; try exact IH. by destruct (HP _ _ He).
Qed.

(** Closes the goal for a handler that issues no session request. *)
Ltac quiet :=
  repeat match goal with
  | |- context [match ?x with _ => _ end] => destruct x eqn:?
  end;
  simpl; rewrite ?session_requests_app; simpl; rewrite ?app_nil_r;
  reflexivity.

Lemma quiet_stopRecording (w : World) :
  session_requests (effects (stopRecording w)) = session_requests (effects w).
Proof.
  destruct (stopRecording_effects w) as (rel & -> & F).
  rewrite session_requests_app, (session_requests_none is_release rel);
    [by rewrite app_nil_r|by intros url body H|exact F].
Qed.

Lemma quiet_endSession (w : World) :
  session_requests (effects (world_of (endSession w)))
    = session_requests (effects w).
Proof.
  destruct (endSession_effects w) as (rel & ch & -> & F1 & F2).
  rewrite !session_requests_app, (session_requests_none is_release rel),
    (session_requests_none is_channel_call ch);
    [by rewrite app_nil_r|by intros url body H|exact F2
    |by intros url body H|exact F1].
Qed.

Lemma quiet_handleWebSocketMessage (r : Hooks) (msg : Msg) (w : World) :
  session_requests (effects (handleWebSocketMessage r msg w))
    = session_requests (effects w).
Proof.
  destruct (handleWebSocketMessage_frame r msg w)
    as (_ & _ & _ & _ & _ & _ & _ & _ & added & -> & F).
  rewrite session_requests_app,
    (session_requests_none is_log_or_speech added);
    [by rewrite app_nil_r|by intros url body H|exact F].
Qed.

Lemma quiet_sendTextMessage (r : Hooks) (w : World) :
  session_requests (effects (world_of (sendTextMessage r w)))
    = session_requests (effects w).
Proof. unfold sendTextMessage, ws_send. quiet. Qed.

(** A step adds no session request, unless it is a press of Start Mission
    with a mission selected, which adds the request of the render on
    screen. *)
Lemma Step_session_requests (w w' : World) :
  Step w w' ->
  session_requests (effects w') = session_requests (effects w) \/
  exists m,
    selectedMission (hooks w) = Some m /\
    session_requests (effects w') =
      session_requests (effects w) ++ [session_request (hooks w)].
Proof.
  intros HS. destruct HS.
  - left. quiet.
  - left. unfold missions_failed. quiet.
  - left. quiet.
  - left. quiet.
  - left. quiet.
  - unfold startMission_onClick.
    destruct (selectedMission (hooks w)) as [m|] eqn:E; [right|by left].
    exists m. split; [reflexivity|].
    unfold startSession. simpl. by rewrite session_requests_app.
  - left. unfold startSession_resume. quiet.
  - left. unfold open_event, ws_onopen, set_readyState. quiet.
  - left. unfold ws_onmessage. destruct (sockets w !! i); [|reflexivity].
    apply quiet_handleWebSocketMessage.
  - left. unfold ws_onerror. quiet.
  - left. unfold close_event, ws_onclose, set_readyState. quiet.
  - left. quiet.
  - left. unfold mic_onClick. destruct (isRecording (hooks w));
      [apply quiet_stopRecording|unfold startRecording; quiet].
  - left. unfold startRecording_granted, recorder_start. quiet.
  - left. unfold startRecording_denied. quiet.
  - left. unfold ondataavailable. quiet.
  - left. unfold onstop. quiet.
  - left. unfold onloadend, ws_send. quiet.
  - left. unfold utterance_ended. quiet.
  - left. quiet.
  - left. unfold textInput_onKeyPress. destruct (String.eqb key "Enter");
      [apply quiet_sendTextMessage|reflexivity].
  - left. unfold send_onClick. destruct (trim_is_empty (textInput (hooks w)));
      [reflexivity|apply quiet_sendTextMessage].
  - left. apply quiet_endSession.
  - left. quiet.
Qed.

(** X29. The component never asks for a session without a mission.  In
    every reachable world, each session request in the log of calls names a
    mission, by its id, and the source language ["English"]; and a step
    from there adds no session request, unless it is a press of Start
    Mission with a mission selected, which adds the request of the render
    on screen. *)
Theorem X29_every_session_request_names_a_mission (w w' : World) :
  Reachable w ->
  Forall well_formed_request (session_requests (effects w)) /\
  (Step w w' ->
   session_requests (effects w') = session_requests (effects w) \/
   exists m,
     selectedMission (hooks w) = Some m /\
     session_requests (effects w') =
       session_requests (effects w) ++ [session_request (hooks w)]).
Proof.
  intros H. split; [|apply Step_session_requests].
  clear w'. induction H as [synth protocol host|w w' _ IH HS]; [constructor|].
  destruct (Step_session_requests w w' HS) as [->|(m & E & ->)];
    [exact IH|].
  apply Forall_app. split; [exact IH|]. constructor; [|constructor].
  split; [|reflexivity]. exists (mission_id m).
  unfold session_request. by rewrite E.
Qed.

Lemma X29_witness :
  Forall well_formed_request (session_requests (effects Sample.speaking)) /\
  (session_requests (effects Scenario.first_click)
     = session_requests (effects Sample.ready) \/
   exists m,
     selectedMission (hooks Sample.ready) = Some m /\
     session_requests (effects Scenario.first_click) =
       session_requests (effects Sample.ready)
         ++ [session_request (hooks Sample.ready)]).
Proof.
  split.
  - apply (X29_every_session_request_names_a_mission Sample.speaking
             Sample.speaking).
    exact (proj2 (proj2 (proj2 Sample_reachable))).
  - apply (X29_every_session_request_names_a_mission Sample.ready
             Scenario.first_click).
    + exact (proj1 Sample_reachable).
    + apply step_start. reflexivity.
Defined.

(** ** White space *)

Lemma trim_is_empty_white (cp : N) (rest : string) :
  In cp WhiteSpace ->
  trim_is_empty (utf8 cp ++ rest) = trim_is_empty rest.
Proof.
  intros H. unfold WhiteSpace in H.
  repeat (destruct H as [<-|H]; [reflexivity|]). destruct H.
Qed.

Lemma in_WhiteSpace_dec (cp : N) :
  existsb (N.eqb cp) WhiteSpace = true -> In cp WhiteSpace.
Proof.
  intros H. apply existsb_exists in H as (x & Hin & E).
  apply N.eqb_eq in E. by subst.
Qed.

Lemma nat_of_ascii_eq (c : ascii) (n : nat) :
  nat_of_ascii c = n -> c = ascii_of_nat n.
Proof. intros <-. by rewrite ascii_nat_embedding. Qed.

Lemma white_space_1 (c : ascii) :
  is_white_space c = true ->
  exists cp, In cp WhiteSpace /\ utf8 cp = String c "".
Proof.
  unfold is_white_space. cbv zeta.
  rewrite orb_true_iff, andb_true_iff, Nat.eqb_eq, !Nat.leb_le.
  intros H.
  assert (E : nat_of_ascii c = 9 \/ nat_of_ascii c = 10 \/
              nat_of_ascii c = 11 \/ nat_of_ascii c = 12 \/
              nat_of_ascii c = 13 \/ nat_of_ascii c = 32) by lia.
  destruct E as [E|[E|[E|[E|[E|E]]]]]; apply nat_of_ascii_eq in E; subst c;
    [exists 9%N|exists 10%N|exists 11%N|exists 12%N|exists 13%N|exists 32%N];
    (split; [by apply in_WhiteSpace_dec|reflexivity]).
Qed.

Lemma white_space_2 (c1 c2 : ascii) :
  is_white_space_2 c1 c2 = true ->
  exists cp, In cp WhiteSpace /\ utf8 cp = String c1 (String c2 "").
Proof.
  unfold is_white_space_2. rewrite andb_true_iff, !Nat.eqb_eq.
  intros [E1 E2]. apply nat_of_ascii_eq in E1, E2. subst c1 c2.
  exists 160%N. split; [by apply in_WhiteSpace_dec|reflexivity].
Qed.

(** Names the code point whose three bytes the goal shows. *)
Ltac encoded :=
  match goal with
  | |- exists cp, _ /\
         utf8 cp = String (ascii_of_nat ?a)
                     (String (ascii_of_nat ?b)
                        (String (ascii_of_nat ?c) _)) =>
      exists (N.of_nat ((a - 224) * 4096 + (b - 128) * 64 + (c - 128)))
  end;
  split; [apply in_WhiteSpace_dec|]; vm_compute; reflexivity.

Lemma white_space_3 (c1 c2 c3 : ascii) :
  is_white_space_3 c1 c2 c3 = true ->
  exists cp,
    In cp WhiteSpace /\ utf8 cp = String c1 (String c2 (String c3 "")).
Proof.
  unfold is_white_space_3. cbv zeta. intros H.
  apply orb_true_iff in H as [H|H];
    [apply orb_true_iff in H as [H|H];
       [apply orb_true_iff in H as [H|H];
          [apply orb_true_iff in H as [H|H]|]|]|];
    apply andb_true_iff in H as [H H3];
    apply andb_true_iff in H as [H1 H2];
    apply Nat.eqb_eq, nat_of_ascii_eq in H1;
    apply Nat.eqb_eq, nat_of_ascii_eq in H2; subst c1 c2.
  - apply Nat.eqb_eq, nat_of_ascii_eq in H3. subst c3. encoded.
  - apply orb_true_iff in H3 as [H3|H3];
      [apply orb_true_iff in H3 as [H3|H3];
         [apply orb_true_iff in H3 as [H3|H3]|]|];
      try (apply Nat.eqb_eq, nat_of_ascii_eq in H3; subst c3; encoded).
    apply andb_true_iff in H3 as [Ha Hb]. apply Nat.leb_le in Ha, Hb.
    assert (Hc : In (nat_of_ascii c3)
                   [128; 129; 130; 131; 132; 133; 134; 135; 136; 137; 138]).
    { simpl. lia. }
    clear Ha Hb. simpl in Hc.
    repeat (destruct Hc as [E|Hc];
            [symmetry in E; apply nat_of_ascii_eq in E; subst c3; encoded|]).
    destruct Hc.
  - apply Nat.eqb_eq, nat_of_ascii_eq in H3. subst c3. encoded.
  - apply Nat.eqb_eq, nat_of_ascii_eq in H3. subst c3. encoded.
  - apply Nat.eqb_eq, nat_of_ascii_eq in H3. subst c3. encoded.
Qed.

Lemma trim_is_empty_step (s : string) :
  trim_is_empty s = true ->
  s = "" \/
  exists cp rest,
    In cp WhiteSpace /\ s = (utf8 cp ++ rest)%string /\
    trim_is_empty rest = true /\ String.length rest < String.length s.
Proof.
  intros H. destruct s as [|c1 s1]; [by left|right].
  cbn [trim_is_empty] in H.
  destruct (is_white_space c1) eqn:E1.
  { apply white_space_1 in E1 as (cp & Hin & E). exists cp, s1.
    rewrite E. simpl. repeat split; [exact Hin|exact H|lia]. }
  destruct s1 as [|c2 s2]; [discriminate|].
  destruct (is_white_space_2 c1 c2) eqn:E2.
  { apply white_space_2 in E2 as (cp & Hin & E). exists cp, s2.
    rewrite E. simpl. repeat split; [exact Hin|exact H|lia]. }
  destruct s2 as [|c3 s3]; [discriminate|].
  destruct (is_white_space_3 c1 c2 c3) eqn:E3; [|discriminate].
  apply white_space_3 in E3 as (cp & Hin & E). exists cp, s3.
  rewrite E. simpl. repeat split; [exact Hin|exact H|lia].
Qed.

(** X30. [trim_is_empty] is the white-space test of [trim].  A string
    trims to the empty string exactly when it is the UTF-8 encoding of a
    sequence of code points that are all WhiteSpace or LineTerminator code
    points of ECMAScript. *)
Theorem X30_trim_is_empty_iff_white_space_only (s : string) :
  trim_is_empty s = true <->
  exists cps,
    (forall cp, In cp cps -> In cp WhiteSpace) /\ s = utf8_string cps.
Proof.
  split.
  - remember (String.length s) as n eqn:En. revert s En.
    induction n as [n IH] using lt_wf_ind. intros s -> H.
    destruct (trim_is_empty_step s H) as [->|(cp & rest & Hin & -> & Hr & Hl)].
    + exists []. split; [by intros cp []|reflexivity].
    + destruct (IH (String.length rest) Hl rest eq_refl Hr)
        as (cps & Hall & ->).
      exists (cp :: cps). split; [|reflexivity].
      intros cp' [<-|Hin']; [exact Hin|by apply Hall].
  - intros (cps & Hall & ->).
    induction cps as [|cp cps IH]; [reflexivity|]. simpl.
    rewrite trim_is_empty_white; [|apply Hall; by left].
    apply IH. intros cp' Hin. apply Hall. by right.
Qed.
